(** * Estate-sale analysis pipeline: similarity scoring, item
    de-duplication, marketplace price lookup and final ranking.

    Shallow embedding of [src/app/api/analyze/route.js] and of the
    marketplace client it imports as [../../lib/ebay], which is the second
    part of [src/unnamed/part_000]; line numbers of the client are those
    of that file. *)

From Stdlib Require Import ZArith QArith Qround Qminmax Lqa List Ascii String.
From stdpp Require Import base numbers list sorting gmap gmultiset strings pretty.

Local Open Scope Z_scope.
Local Open Scope nat_scope.

(** ** JavaScript strings

    A JavaScript string is a sequence of UTF-16 code units.  [js] turns an
    ASCII literal of the source into such a sequence. *)

Abbreviation jsstring := (list N).

Definition js (s : string) : jsstring := N_of_ascii <$> list_ascii_of_string s.

(** [s.substring(i, j)] for [i <= j]: the code units at positions
    [i .. j-1], clamped to the length of [s]. *)
Definition substring (s : jsstring) (i j : nat) : jsstring :=
  take (j - i) (drop i s).

(** [String.prototype.toLowerCase] restricted to strings whose code units
    are all ASCII: [A-Z] is shifted to [a-z], everything else is kept. *)
Definition toLowerCaseASCII (s : jsstring) : jsstring :=
  (fun c => if decide (65 <= c <= 90)%N then (c + 32)%N else c) <$> s.

(** ** Similarity scorer ([similarity], route.js lines 61-84)

    The Unicode lower-casing of the host is a parameter of the model: the
    results below hold for every lower-casing function. *)

Section Similarity.
Variable toLowerCase : jsstring -> jsstring.

(** First loop: count every bigram of [aLower] in a [Map]. *)
Definition countBigrams (aLower : jsstring) : gmap (list N) nat :=
  foldl (fun bigrams i =>
           let bigram := substring aLower i (i + 2) in
           <[bigram := default 0 (bigrams !! bigram) + 1]> bigrams)
        ∅ (seq 0 (length aLower - 1)).

(** Second loop: scan the bigrams of [bLower]; a bigram still present in
    the map is consumed and counted. *)
Definition consumeBigrams (bLower : jsstring) (bigrams : gmap (list N) nat)
  : gmap (list N) nat * nat :=
  foldl (fun st i =>
           let bigram := substring bLower i (i + 2) in
           let count := default 0 (st.1 !! bigram) in
           if decide (0 < count)
           then (<[bigram := count - 1]> st.1, st.2 + 1)
           else st)
        (bigrams, 0) (seq 0 (length bLower - 1)).

(** The score is the exact quotient; the source computes it in double
    precision, which agrees with the exact value on every comparison
    against 0, 1, 0.75 and 0.70 for strings of any realistic length. *)
Definition similarity (a b : jsstring) : Q :=
  let aLower := toLowerCase a in
  let bLower := toLowerCase b in
  if decide (aLower = bLower) then 1%Q
  else if decide (length aLower < 2 ∨ length bLower < 2) then 0%Q
  else
    let bigrams := countBigrams aLower in
    let intersections := (consumeBigrams bLower bigrams).2 in
    Qmake (2 * Z.of_nat intersections)
          (Z.to_pos (Z.of_nat (length aLower) + Z.of_nat (length bLower) - 2)).
End Similarity.

(** ** Exceptions

    A call either returns a value or throws; [outcome] is the error monad
    that threads a thrown exception through the rest of a function body. *)

Inductive exn_kind := TypeError | SyntaxError | PlainError.

Record exn := Exn { kind : exn_kind; message : jsstring }.

Inductive outcome (A : Type) : Type :=
| Returned (a : A)
| Thrown (e : exn).
Arguments Returned {A} a.
Arguments Thrown {A} e.

#[global] Instance outcome_ret : MRet outcome := fun A a => Returned a.
#[global] Instance outcome_bind : MBind outcome := fun A B f m =>
  match m with
  | Returned a => f a
  | Thrown e => Thrown e
  end.
#[global] Instance outcome_fmap : FMap outcome := fun A B f m =>
  match m with
  | Returned a => Returned (f a)
  | Thrown e => Thrown e
  end.

(** Calling a string method on a value that is not a string
    ([undefined.toLowerCase()]) throws a [TypeError]. *)
Definition notAString (method : string) : exn :=
  Exn TypeError (js "Cannot read properties of undefined (reading '" ++ js method ++ js "')").

(** ** Data model *)

(** One completed sale of the marketplace, as built at lines 288-297 of
    the client.  [soldPrice] is the result of [parseFloat]; [None] stands
    for [NaN]. *)
Record SoldItem := {
  title : jsstring;
  soldPrice : option Q;
  currency : jsstring;
  soldDate : option jsstring;
  condition : jsstring;
  listingType : jsstring;
  imageUrl : option jsstring;
  itemUrl : option jsstring
}.

(** The statistics of a successful lookup. *)
Record Stats := {
  count : nat;
  totalResults : Z;
  median : Z;
  mean : Z;
  low : Q;
  high : Q;
  recentSales : list SoldItem
}.

(** The value returned by a price lookup: [{available: false, reason}]
    or [{available: true, ...stats}]. *)
Inductive Lookup :=
| Unavailable (reason : jsstring)
| Available (stats : Stats).

(** A detected item.  Every field the vision model is asked for is
    optional: [None] stands for a property that is absent from the parsed
    object. *)
Record Item := {
  name : option jsstring;
  category : option jsstring;
  brand : option jsstring;
  model : option jsstring;
  era : option jsstring;
  condition_estimate : option jsstring;
  notable_features : option (list jsstring);
  search_query : option jsstring;
  confidence : option jsstring;
  confidence_reasoning : option jsstring;
  estimated_value_hint : option jsstring;
  photoIndex : nat;
  photoUrl : jsstring;
  ebay : option Stats
}.

(** [existing.notable_features = v] *)
Definition set_notable_features (v : list jsstring) (existing : Item) : Item :=
  {| name := name existing; category := category existing;
     brand := brand existing; model := model existing; era := era existing;
     condition_estimate := condition_estimate existing;
     notable_features := Some v;
     search_query := search_query existing;
     confidence := confidence existing;
     confidence_reasoning := confidence_reasoning existing;
     estimated_value_hint := estimated_value_hint existing;
     photoIndex := photoIndex existing; photoUrl := photoUrl existing;
     ebay := ebay existing |}.

(** [item.ebay = v] *)
Definition set_ebay (v : Stats) (item : Item) : Item :=
  {| name := name item; category := category item;
     brand := brand item; model := model item; era := era item;
     condition_estimate := condition_estimate item;
     notable_features := notable_features item;
     search_query := search_query item;
     confidence := confidence item;
     confidence_reasoning := confidence_reasoning item;
     estimated_value_hint := estimated_value_hint item;
     photoIndex := photoIndex item; photoUrl := photoUrl item;
     ebay := Some v |}.

(** ** Dollar amounts in a value hint

    [dollarAmounts Idle s] lists the capture groups of the successive
    matches of [/\$(\d+)/g] in [s]: a dollar sign followed by a maximal
    non-empty run of ASCII digits; the search resumes after each match. *)

Definition isDigit (c : N) : bool := ((48 <=? c) && (c <=? 57))%N.
Definition isDollar (c : N) : bool := (c =? 36)%N.

Inductive scanState := Idle | AfterDollar | InDigits (digits : jsstring).

Fixpoint dollarAmounts (st : scanState) (s : jsstring) : list jsstring :=
  match s with
  | [] => match st with InDigits ds => [ds] | _ => [] end
  | c :: s' =>
      match st with
      | InDigits ds =>
          if isDigit c then dollarAmounts (InDigits (ds ++ [c])) s'
          else ds :: dollarAmounts (if isDollar c then AfterDollar else Idle) s'
      | AfterDollar =>
          if isDigit c then dollarAmounts (InDigits [c]) s'
          else dollarAmounts (if isDollar c then AfterDollar else Idle) s'
      | Idle => dollarAmounts (if isDollar c then AfterDollar else Idle) s'
      end
  end.

(** [parseInt] on a non-empty run of decimal digits.  The value is the
    exact integer.  The source returns a double: the same number for
    every amount below 2^53, a rounded one from there on.  Statements
    that depend on the number read carry that bound. *)
Definition parseInt (digits : jsstring) : Z :=
  foldl (fun acc d => (acc * 10 + (Z.of_N d - 48))%Z) 0%Z digits.

(** [parseEstimate] (route.js lines 87-91): the first dollar amount of
    the hint, 0 when the hint is absent, empty or has no such amount. *)
Definition parseEstimate (hint : option jsstring) : Z :=
  match hint with
  | None | Some [] => 0
  | Some h =>
      match dollarAmounts Idle h with
      | digits :: _ => parseInt digits
      | [] => 0
      end
  end.

(** ** Stable sort

    [Array.prototype.sort] is stable; for a comparator that orders by a
    numeric key its result is the stable arrangement computed here by
    insertion from the right.  [compareFn] gives the comparator's result
    as the sort reads it, a NaN counting as 0.  A comparator that
    returns NaN for some pairs is in general not a consistent one, and
    the order is then left to the engine, for which the insertion below
    stands.  Statements about the order of the result carry the
    hypothesis that makes the comparator consistent. *)

Section Sort.
Context {A : Type} (compareFn : A -> A -> Z).

Fixpoint insertSorted (x : A) (l : list A) : list A :=
  match l with
  | [] => [x]
  | y :: l' =>
      if decide (compareFn x y <= 0)%Z then x :: l
      else y :: insertSorted x l'
  end.

Definition sortBy (l : list A) : list A := foldr insertSorted [] l.
End Sort.

(** ** Item deduplicator ([deduplicateItems], route.js lines 94-123) *)

(** The names of the properties that an object literal inherits from
    [Object.prototype]. *)
Definition inheritedKeys : list jsstring :=
  js <$> ["constructor"; "hasOwnProperty"; "isPrototypeOf"; "propertyIsEnumerable";
          "toLocaleString"; "toString"; "valueOf"; "__proto__";
          "__defineGetter__"; "__defineSetter__";
          "__lookupGetter__"; "__lookupSetter__"]%string.

(** [confidenceRank[c] || 0] for the object literal
    [{ high: 3, medium: 2, low: 1 }], as an operand of the subtraction
    of line 97: [Some n] is the number [n]; [None] is the function or
    object found under an inherited name, which is truthy and makes the
    difference NaN. *)
Definition confidenceRank (c : option jsstring) : option Z :=
  match c with
  | Some s =>
      if decide (s = js "high") then Some 3%Z
      else if decide (s = js "medium") then Some 2%Z
      else if decide (s = js "low") then Some 1%Z
      else if decide (s ∈ inheritedKeys) then None
      else Some 0%Z
  | None => Some 0%Z
  end.

(** The comparator of lines 96-98; a NaN is read as 0 by the sort. *)
Definition byConfidence (a b : Item) : Z :=
  match confidenceRank (confidence b), confidenceRank (confidence a) with
  | Some rankB, Some rankA => (rankB - rankA)%Z
  | _, _ => 0%Z
  end.

(** A [Set] keeps its elements in insertion order, without repetition. *)
Definition setAdd (s : list jsstring) (f : jsstring) : list jsstring :=
  if decide (f ∈ s) then s else s ++ [f].

(** Lines 109-113: the features of [existing], then those of [item]. *)
Definition mergeFeatures (existing item : Item) : list jsstring :=
  let existingFeatures := foldl setAdd [] (default [] (notable_features existing)) in
  foldl setAdd existingFeatures (default [] (notable_features item)).

Definition defaultNameThreshold : Q := 0.75%Q.
Definition defaultQueryThreshold : Q := 0.70%Q.

Section Deduplicate.
Variable toLowerCase : jsstring -> jsstring.

(** A call [similarity(a, b)] whose arguments may be absent:
    [a.toLowerCase()] is evaluated first, then [b.toLowerCase()]. *)
Definition similarityCall (a b : option jsstring) : outcome Q :=
  match a, b with
  | Some a', Some b' => Returned (similarity toLowerCase a' b')
  | _, _ => Thrown (notAString "toLowerCase")
  end.

Variables nameThreshold queryThreshold : Q.

(** The inner loop over [kept] (lines 103-117).  [Some kept'] is the
    list after a merge ([isDuplicate = true]), [None] means that no
    kept item matched. *)
Fixpoint findDuplicate (item : Item) (kept : list Item)
  : outcome (option (list Item)) :=
  match kept with
  | [] => mret None
  | existing :: rest =>
      if decide (category item ≠ category existing)
      then (λ r : option (list Item), cons existing <$> r) <$> findDuplicate item rest
      else
        nameSim ← similarityCall (name item) (name existing);
        querySim ← similarityCall (search_query item) (search_query existing);
        if Qle_bool nameThreshold nameSim || Qle_bool queryThreshold querySim
        then mret (Some (set_notable_features (mergeFeatures existing item) existing :: rest))
        else (λ r : option (list Item), cons existing <$> r) <$> findDuplicate item rest
  end.

(** The outer loop over [sorted] (lines 101-121). *)
Fixpoint dedupLoop (sorted kept : list Item) : outcome (list Item) :=
  match sorted with
  | [] => mret kept
  | item :: sorted' =>
      r ← findDuplicate item kept;
      match r with
      | Some kept' => dedupLoop sorted' kept'
      | None => dedupLoop sorted' (kept ++ [item])
      end
  end.

Definition deduplicateItems (items : list Item) : outcome (list Item) :=
  let sorted := sortBy byConfidence items in
  dedupLoop sorted [].
End Deduplicate.

(** ** Marketplace client (the module [lib/ebay])

    The network is a parameter: [network n req] is the outcome of the
    request [req] when [n] requests were issued before it.  The state
    threaded through the client is the trace of what happened so far:
    the calls of [findSoldListings] and the requests sent. *)

Inductive FilterValue :=
| Single (v : jsstring)
| Multiple (vs : list jsstring).

Record ItemFilter := {
  filterName : jsstring;
  filterValue : FilterValue;
  filterParam : option (jsstring * jsstring)
}.

(** The URL requested: the endpoint and the query parameters in the
    order of [URLSearchParams]. *)
Record Request := {
  endpoint : jsstring;
  params : list (jsstring * jsstring)
}.

(** [params.set(k, v)]: replaces the first entry for [k], or appends. *)
Fixpoint paramsSet (k v : jsstring) (ps : list (jsstring * jsstring))
  : list (jsstring * jsstring) :=
  match ps with
  | [] => [(k, v)]
  | (k', v') :: ps' =>
      if decide (k' = k) then (k, v) :: ps' else (k', v') :: paramsSet k v ps'
  end.

(** The parsed response body, read through the paths of lines 278-297:
    [ack] is [result?.ack?.[0]], [errorMessage] the message reached at
    line 281, [soldItems] the list built at lines 288-297 and
    [totalEntries] the number parsed at line 286. *)
Record SearchResponse := {
  ack : option jsstring;
  errorMessage : option jsstring;
  soldItems : list SoldItem;
  totalEntries : Z
}.

(** What [fetch] and [response.json()] give: the request fails, or a
    response arrives whose body parses and reads as a [SearchResponse] or
    throws on the way. *)
Inductive HttpOutcome :=
| FetchRejected (e : exn)
| Responded (ok : bool) (status : Z) (body : outcome SearchResponse).

Record Options := {
  maxResults : option nat;
  categoryId : option jsstring;
  minPrice : option Z;
  maxPrice : option Z
}.

(** One entry of the array returned by [batchPriceLookup]. *)
Record PriceLookup := {
  itemName : option jsstring;
  ebayLookup : Lookup
}.

(** The trace: a call of the price lookup with its arguments, or a
    request sent to the marketplace. *)
Inductive Event :=
| Invoked (searchQuery : jsstring) (options : Options)
| Fetched (req : Request).

Definition isFetched (ev : Event) : bool :=
  match ev with
  | Fetched _ => true
  | Invoked _ _ => false
  end.

(** The state monad of the client. *)
Definition Net (A : Type) : Type := list Event -> A * list Event.

(** Appends an event to the trace. *)
Definition record (ev : Event) : Net unit := fun log => (tt, log ++ [ev]).

#[global] Instance Net_ret : MRet Net := fun A a log => (a, log).
#[global] Instance Net_bind : MBind Net := fun A B f m log =>
  let (a, log') := m log in f a log'.

(** [Math.round]: the nearest integer, halves rounded up. *)
Definition mathRound (x : Q) : Z := Qfloor (x + (1 # 2))%Q.

(** The sign of a number, all that [sort] reads of its comparator. *)
Definition signOf (x : Q) : Z := Z.sgn (Qnum x).

(** A truthy string: present and not empty. *)
Definition truthy (s : option jsstring) : bool :=
  match s with
  | None | Some [] => false
  | Some _ => true
  end.

(** [median] (client lines 326-332). *)
Definition medianOf (arr : list Q) : Z :=
  let sorted := sortBy (fun a b => signOf (a - b)%Q) arr in
  let mid := (length sorted / 2)%nat in
  if decide (length sorted mod 2 ≠ 0)
  then mathRound (default 0%Q (sorted !! mid))
  else let lower := default 0%Q (sorted !! (mid - 1)) in
       let upper := default 0%Q (sorted !! mid) in
       mathRound ((lower + upper) / 2)%Q.

(** Lines 299-317: the price statistics of a successful search. *)
Definition priceStats (data : SearchResponse) : Stats :=
  let prices :=
    omap (fun i => match soldPrice i with
                   | Some p => if Qlt_le_dec 0%Q p then Some p else None
                   | None => None
                   end) (soldItems data) in
  match prices with
  | p :: ps =>
      {| count := length prices;
         totalResults := totalEntries data;
         median := medianOf prices;
         mean := mathRound (foldl Qplus 0 prices / inject_Z (Z.of_nat (length prices)))%Q;
         low := foldl Qmin p ps;
         high := foldl Qmax p ps;
         recentSales := take 5 (soldItems data) |}
  | [] =>
      {| count := 0; totalResults := totalEntries data; median := 0; mean := 0;
         low := 0%Q; high := 0%Q; recentSales := [] |}
  end.

Definition FINDING_API_URL : jsstring :=
  js "https://svcs.ebay.com/services/search/FindingService/v1".

(** Lines 221-232. *)
Definition buildItemFilters (options : Options) : list ItemFilter :=
  let itemFilters :=
    [ {| filterName := js "SoldItemsOnly"; filterValue := Single (js "true");
         filterParam := None |};
      {| filterName := js "Condition";
         filterValue := Multiple (js <$> ["1000"; "1500"; "2000"; "2500"; "3000";
                                          "4000"; "5000"; "6000"]%string);
         filterParam := None |} ] in
  let itemFilters :=
    match minPrice options with
    | Some p => if decide (p ≠ 0%Z)
                then itemFilters ++
                     [ {| filterName := js "MinPrice"; filterValue := Single (js (pretty p));
                          filterParam := Some (js "Currency", js "USD") |} ]
                else itemFilters
    | None => itemFilters
    end in
  match maxPrice options with
  | Some p => if decide (p ≠ 0%Z)
              then itemFilters ++
                   [ {| filterName := js "MaxPrice"; filterValue := Single (js (pretty p));
                        filterParam := Some (js "Currency", js "USD") |} ]
              else itemFilters
  | None => itemFilters
  end.

(** Lines 251-264: the query parameters of one filter. *)
Definition filterParams (idx : nat) (filter : ItemFilter)
  (ps : list (jsstring * jsstring)) : list (jsstring * jsstring) :=
  let prefix := js "itemFilter(" ++ js (pretty idx) ++ js ")" in
  let ps := paramsSet (prefix ++ js ".name") (filterName filter) ps in
  let ps :=
    match filterValue filter with
    | Multiple vs =>
        foldl (fun ps vv => paramsSet (prefix ++ js ".value(" ++ js (pretty vv.1) ++ js ")") vv.2 ps)
              ps (imap pair vs)
    | Single v => paramsSet (prefix ++ js ".value") v ps
    end in
  match filterParam filter with
  | Some (pn, pv) =>
      paramsSet (prefix ++ js ".paramValue") pv (paramsSet (prefix ++ js ".paramName") pn ps)
  | None => ps
  end.

(** Lines 234-266. *)
Definition buildRequest (appId searchQuery : jsstring) (options : Options) : Request :=
  let ps :=
    [ (js "OPERATION-NAME", js "findCompletedItems");
      (js "SERVICE-VERSION", js "1.13.0");
      (js "SECURITY-APPNAME", appId);
      (js "RESPONSE-DATA-FORMAT", js "JSON");
      (js "REST-PAYLOAD", js "true");
      (js "keywords", searchQuery);
      (js "paginationInput.entriesPerPage", js (pretty (default 8 (maxResults options))));
      (js "sortOrder", js "EndTimeSoonest") ] in
  let ps :=
    if truthy (categoryId options)
    then paramsSet (js "categoryId") (default [] (categoryId options)) ps
    else ps in
  {| endpoint := FINDING_API_URL;
     params := foldl (fun ps f => filterParams f.1 f.2 ps) ps
                     (imap pair (buildItemFilters options)) |}.

Section Marketplace.
(** [process.env.EBAY_APP_ID] and the network. *)
Variable EBAY_APP_ID : option jsstring.
Variable network : nat -> Request -> HttpOutcome.

(** [await fetch(url, ...)]: the request is recorded and answered. *)
Definition fetch (req : Request) : Net HttpOutcome :=
  fun log => (network (length (filter isFetched log)) req, log ++ [Fetched req]).

(** The body of the [try] block (lines 269-319), after [fetch]. *)
Definition readResponse (response : HttpOutcome) : outcome Lookup :=
  match response with
  | FetchRejected e => Thrown e
  | Responded ok status body =>
      if negb ok
      then Thrown (Exn PlainError (js "eBay API error: " ++ js (pretty status)))
      else
        data ← body;
        if decide (ack data ≠ Some (js "Success"))
        then Thrown (Exn PlainError
                       (if truthy (errorMessage data)
                        then default [] (errorMessage data)
                        else js "Unknown eBay API error"))
        else mret (Available (priceStats data))
  end.

(** [findSoldListings] (lines 208-324).  The result is the settlement
    of the promise it returns: [Returned] when fulfilled, [Thrown] when
    rejected. *)
Definition findSoldListings (searchQuery : jsstring) (options : Options)
  : Net (outcome Lookup) :=
  _ ← record (Invoked searchQuery options);
  if truthy EBAY_APP_ID then
    let url := buildRequest (default [] EBAY_APP_ID) searchQuery options in
    response ← fetch url;
    match readResponse response with
    | Returned v => mret (Returned v)
    | Thrown err => mret (Returned (Unavailable (message err)))
    end
  else mret (Returned (Unavailable (js "EBAY_APP_ID not configured"))).

(** Lines 348-360: the price range derived from the value hint.  The
    products are exact.  The source multiplies doubles, and
    [Math.round] of its products is the same integer for every amount
    below 2^50; statements about the bounds carry that hypothesis. *)
Definition priceRange (item : Item) : option Z * option Z :=
  if truthy (estimated_value_hint item) then
    match dollarAmounts Idle (default [] (estimated_value_hint item)) with
    | m0 :: ms =>
        let low := parseInt m0 in
        let high := parseInt (match ms with m1 :: _ => m1 | [] => m0 end) in
        (Some (Z.max 1 (mathRound (inject_Z low * 0.3)%Q)),
         Some (mathRound (inject_Z high * 3)%Q))
    | [] => (None, None)
    end
  else (None, None).

(** The callback mapped over a batch (lines 343-364). *)
Definition lookupItem (item : Item) : Net (outcome PriceLookup) :=
  if negb (truthy (search_query item))
  then mret (Returned {| itemName := name item;
                         ebayLookup := Unavailable (js "No search query") |})
  else
    let range := priceRange item in
    settled ← findSoldListings (default [] (search_query item))
                {| maxResults := None; categoryId := None;
                   minPrice := range.1; maxPrice := range.2 |};
    match settled with
    | Returned ebay => mret (Returned {| itemName := name item; ebayLookup := ebay |})
    | Thrown e => mret (Thrown e)
    end.

(** [Promise.allSettled(batch.map(...))]: the callbacks start in item
    order, each issuing its request before the next one starts. *)
Fixpoint allSettled (batch : list Item) : Net (list (outcome PriceLookup)) :=
  match batch with
  | [] => mret []
  | item :: batch' =>
      r ← lookupItem item;
      rs ← allSettled batch';
      mret (r :: rs)
  end.

(** Lines 367-373. *)
Definition collect (result : outcome PriceLookup) : PriceLookup :=
  match result with
  | Returned value => value
  | Thrown reason =>
      {| itemName := Some (js "unknown"); ebayLookup := Unavailable (message reason) |}
  end.

(** The loop of [batchPriceLookup] (lines 340-374); [None] when the
    fuel runs out before the loop ends. *)
Fixpoint batchLoop (fuel : nat) (items : list Item) (concurrency i : nat)
  (results : list PriceLookup) : Net (option (list PriceLookup)) :=
  match fuel with
  | O => mret None
  | S fuel' =>
      if decide (i < length items) then
        let batch := take concurrency (drop i items) in
        batchResults ← allSettled batch;
        batchLoop fuel' items concurrency (i + concurrency)
                  (results ++ (collect <$> batchResults))
      else mret (Some results)
  end.

Definition batchPriceLookup (items : list Item) (concurrency : nat)
  : Net (option (list PriceLookup)) :=
  batchLoop (S (length items)) items concurrency 0 [].
End Marketplace.

(** ** Vision analysis orchestrator ([POST], route.js lines 125-302) *)

Record Photo := {
  url : jsstring;
  thumbnailUrl : option jsstring
}.

Record RequestBody := {
  saleId : option jsstring;
  saleTitle : option jsstring;
  saleAddress : option jsstring;
  maxPhotos : option nat
}.

(** The answer of the listing source: [ok], [status] and
    [saleData.pictures || []]. *)
Record SaleDetails := {
  saleOk : bool;
  saleStatus : Z;
  pictures : list Photo
}.

Record Summary := {
  photosAnalyzed : nat;
  totalPhotos : nat;
  itemsFound : nat;
  ebayAvailable : bool;
  estimatedLow : Q;
  estimatedHigh : Q;
  ebayMedian : option Z
}.

(** What the handler answers: an error object with its HTTP status, the
    empty report for a sale without photos, or the analysis report.
    [NoResponse] stands for a handler that never answers. *)
Inductive Response :=
| Failure (status : Z) (error : jsstring) (detail : option jsstring)
| NoPhotos (note : jsstring)
| Report (items : list Item) (summary : Summary)
| NoResponse.

(** The sort key of line 258: [a.ebay?.median || parseEstimate(...)]. *)
Definition sortValue (a : Item) : Z :=
  match ebay a with
  | Some e => if decide (median e ≠ 0%Z) then median e
              else parseEstimate (estimated_value_hint a)
  | None => parseEstimate (estimated_value_hint a)
  end.

Definition byValue (a b : Item) : Z := (sortValue b - sortValue a)%Z.

(** Lines 234-250, for one item: the first lookup carrying the item's
    name is attached when it is available with at least one comp. *)
Definition attachComps (priceLookups : list PriceLookup) (item : Item) : Item * bool :=
  match List.find (fun r => bool_decide (itemName r = name item)) priceLookups with
  | Some lookup =>
      match ebayLookup lookup with
      | Available st => if decide (0 < count st) then (set_ebay st item, true)
                        else (item, false)
      | Unavailable _ => (item, false)
      end
  | None => (item, false)
  end.

(** Lines 264-279: the running totals after one more item. *)
Definition addToTotals (totals : Q * Q * Z) (item : Item) : Q * Q * Z :=
  let '(totalLow, totalHigh, totalEbayMedian) := totals in
  match ebay item with
  | Some e => ((totalLow + low e)%Q, (totalHigh + high e)%Q, (totalEbayMedian + median e)%Z)
  | None =>
      if truthy (estimated_value_hint item) then
        match dollarAmounts Idle (default [] (estimated_value_hint item)) with
        | m0 :: ms =>
            ((totalLow + inject_Z (parseInt m0))%Q,
             (totalHigh + inject_Z (parseInt (match ms with m1 :: _ => m1 | [] => m0 end)))%Q,
             totalEbayMedian)
        | [] => totals
        end
      else totals
  end.

Section Orchestrator.
Variable toLowerCase : jsstring -> jsstring.
Variables ANTHROPIC_API_KEY EBAY_APP_ID : option jsstring.
Variable network : nat -> Request -> HttpOutcome.
(** The listing source, asked for the photos of a sale. *)
Variable saleDetails : jsstring -> outcome SaleDetails.
(** The vision model: what fetching, analysing and parsing the photo at
    an index gives (lines 176-204). *)
Variable vision : nat -> Photo -> outcome (list Item).

(** The callback of lines 173-214: the items of one photo, tagged with
    the photo; a failure contributes nothing. *)
Definition analyzePhoto (photoIdx : nat) (photo : Photo) : list Item :=
  match vision photoIdx photo with
  | Returned items =>
      (fun item =>
         {| name := name item; category := category item;
            brand := brand item; model := model item; era := era item;
            condition_estimate := condition_estimate item;
            notable_features := notable_features item;
            search_query := search_query item;
            confidence := confidence item;
            confidence_reasoning := confidence_reasoning item;
            estimated_value_hint := estimated_value_hint item;
            photoIndex := photoIdx;
            photoUrl := if truthy (thumbnailUrl photo)
                        then default [] (thumbnailUrl photo) else url photo;
            ebay := ebay item |}) <$> items
  | Thrown _ => []
  end.

(** Steps 3 to 6 of the handler (lines 224-294), from the flattened
    items of all photos. *)
Definition analyzeItems (nPhotos nPictures : nat) (allItems : list Item)
  : outcome Response :=
  deduplicated ← deduplicateItems toLowerCase defaultNameThreshold
                    defaultQueryThreshold allItems;
  let enriched :=
    if truthy EBAY_APP_ID then
      match (batchPriceLookup EBAY_APP_ID network deduplicated 3 []).1 with
      | Some priceLookups => Some (attachComps priceLookups <$> deduplicated)
      | None => None
      end
    else Some ((fun item => (item, false)) <$> deduplicated) in
  match enriched with
  | None => mret NoResponse
  | Some merged =>
      let ebayAvailable := existsb snd merged in
      let deduplicated := sortBy byValue (fst <$> merged) in
      let '(totalLow, totalHigh, totalEbayMedian) :=
        foldl addToTotals (0%Q, 0%Q, 0%Z) deduplicated in
      mret (Report deduplicated
              {| photosAnalyzed := nPhotos;
                 totalPhotos := nPictures;
                 itemsFound := length deduplicated;
                 ebayAvailable := ebayAvailable;
                 estimatedLow := totalLow;
                 estimatedHigh := totalHigh;
                 ebayMedian := if ebayAvailable then Some totalEbayMedian else None |})
  end.

(** The body of the outer [try] (lines 127-294). *)
Definition handle (request : outcome RequestBody) : outcome Response :=
  body ← request;
  if negb (truthy (saleId body))
  then mret (Failure 400 (js "saleId is required") None)
  else if negb (truthy ANTHROPIC_API_KEY)
  then mret (Failure 500 (js "ANTHROPIC_API_KEY not configured") None)
  else
    saleData ← saleDetails (default [] (saleId body));
    if negb (saleOk saleData)
    then Thrown (Exn PlainError (js "Failed to fetch sale details: "
                                   ++ js (pretty (saleStatus saleData))))
    else if decide (length (pictures saleData) = 0)
    then mret (NoPhotos (js "No photos found for this sale"))
    else
      let photosToAnalyze := take (default 10 (maxPhotos body)) (pictures saleData) in
      let allItems := mjoin (imap analyzePhoto photosToAnalyze) in
      analyzeItems (length photosToAnalyze) (length (pictures saleData)) allItems.

(** [POST]: whatever the body throws is answered with status 500. *)
Definition POST (request : outcome RequestBody) : Response :=
  match handle request with
  | Returned response => response
  | Thrown error => Failure 500 (js "Analysis failed") (Some (message error))
  end.

(** The items of a response ([items] of the JSON answered). *)
Definition reportItems (r : Response) : option (list Item) :=
  match r with
  | Report items _ => Some items
  | NoPhotos _ => Some []
  | _ => None
  end.
End Orchestrator.

(** ** Parsing the reply of the vision model
    ([parseItemsFromResponse], route.js lines 40-58) *)

(** A parsed JSON value. *)
#[local] Unset Elimination Schemes.
Inductive JSON :=
| JNull
| JBool (b : bool)
| JNumber (x : Q)
| JString (s : jsstring)
| JArray (elems : list JSON)
| JObject (members : list (jsstring * JSON)).
#[local] Set Elimination Schemes.

(** The code units [String.prototype.trim] strips: white space and line
    terminators. *)
Definition isWhiteSpace (c : N) : bool :=
  match c with
  | 9 | 10 | 11 | 12 | 13 | 32 | 160 | 5760 | 8232 | 8233 | 8239 | 8287
  | 12288 | 65279 => true
  | _ => (8192 <=? c) && (c <=? 8202)
  end%N.

Fixpoint dropWhile (p : N -> bool) (s : jsstring) : jsstring :=
  match s with
  | [] => []
  | c :: s' => if p c then dropWhile p s' else s
  end.

Definition trim (s : jsstring) : jsstring :=
  reverse (dropWhile isWhiteSpace (reverse (dropWhile isWhiteSpace s))).

Definition startsWith (s p : jsstring) : bool := bool_decide (take (length p) s = p).
Definition endsWith (s p : jsstring) : bool :=
  bool_decide (length p <= length s ∧ drop (length s - length p) s = p).

Definition fence : jsstring := js "```".
Definition LF : jsstring := [10%N].

(** Line 44, on a string that starts with the fence: the first
    [replace] removes the fence, an optional [json] and an optional line
    feed from the start; the second removes an optional line feed and the
    fence from the very end. *)
Definition stripFence (cleaned : jsstring) : jsstring :=
  let s := drop (length fence) cleaned in
  let s := if startsWith s (js "json") then drop 4 s else s in
  let s := if startsWith s LF then drop 1 s else s in
  if endsWith s (LF ++ fence) then take (length s - 4) s
  else if endsWith s fence then take (length s - 3) s
  else s.

(** [cleaned.match(/\[[\s\S]*\]/)]: from the first opening bracket to the
    last closing bracket after it. *)
Definition bracketed (cleaned : jsstring) : option jsstring :=
  let from := dropWhile (fun c => negb (c =? 91)%N) cleaned in
  match reverse (dropWhile (fun c => negb (c =? 93)%N) (reverse from)) with
  | [] => None
  | found => Some found
  end.

(** Lines 42-45: the reply without surrounding white space and without
    code fence. *)
Definition cleanReply (text : jsstring) : jsstring :=
  let cleaned := trim text in
  if startsWith cleaned fence then stripFence cleaned else cleaned.

Section ParseItems.
(** [JSON.parse], of the host. *)
Variable JSON_parse : jsstring -> outcome JSON.

(** The value returned is an array after a direct parse; after the
    fallback it is whatever the bracketed text parses to. *)
Definition parseItemsFromResponse (text : jsstring) : outcome JSON :=
  let cleaned := cleanReply text in
  match JSON_parse cleaned with
  | Returned parsed =>
      Returned (match parsed with
                | JArray _ => parsed
                | _ => JArray [parsed]
                end)
  | Thrown _ =>
      match bracketed cleaned with
      | Some found => JSON_parse found
      | None => Thrown (Exn PlainError (js "Could not parse items from Claude response"))
      end
  end.
End ParseItems.

(** ** Sample data *)

(** An item as the vision model describes it, with the fields the
    pipeline reads. *)
Definition detected (n c conf q : string) (features : list string)
  (hint : option string) : Item :=
  {| name := Some (js n); category := Some (js c); brand := None; model := None;
     era := None; condition_estimate := None;
     notable_features := Some (js <$> features);
     search_query := Some (js q); confidence := Some (js conf);
     confidence_reasoning := None;
     estimated_value_hint := js <$> hint;
     photoIndex := 0; photoUrl := []; ebay := None |}.

Definition pyrexHigh : Item :=
  detected "Pyrex 401 bowl" "kitchenware" "high" "pyrex 401 primary blue"
           ["blue"; "1 quart"] (Some "$20-40"%string).

Definition pyrexMedium : Item :=
  detected "Pyrex 401 mixing bowl" "kitchenware" "medium" "pyrex 401 bowl blue"
           ["blue"; "no chips"] (Some "$15-30"%string).

(** An item for which the vision model gave no name. *)
Definition noName (c conf q : string) : Item :=
  {| name := None; category := Some (js c); brand := None; model := None;
     era := None; condition_estimate := None; notable_features := None;
     search_query := Some (js q); confidence := Some (js conf);
     confidence_reasoning := None; estimated_value_hint := None;
     photoIndex := 0; photoUrl := []; ebay := None |}.

(** An item for which the vision model gave no search phrase. *)
Definition noQuery (n c conf : string) : Item :=
  {| name := Some (js n); category := Some (js c); brand := None; model := None;
     era := None; condition_estimate := None; notable_features := None;
     search_query := None; confidence := Some (js conf);
     confidence_reasoning := None; estimated_value_hint := None;
     photoIndex := 0; photoUrl := []; ebay := None |}.


Definition corningware : Item :=
  detected "Corningware casserole dish" "kitchenware" "medium"
           "corningware cornflower casserole" ["lid"] (Some "$25"%string).



Definition brassKey : Item :=
  detected "Brass key" "collectibles" "low" "antique brass key" [] (Some "$5"%string).

(** Two items of the same name in different categories, and a lamp
    without search phrase. *)
Definition tokenHigh : Item :=
  detected "Token" "collectibles" "high" "transit token" [] None.

Definition tokenMedium : Item :=
  detected "Token" "jewelry" "medium" "token pendant" [] (Some "$50"%string).

Definition lamp : Item :=
  {| name := Some (js "Lamp"); category := Some (js "furniture"); brand := None;
     model := None; era := None; condition_estimate := None;
     notable_features := None; search_query := None;
     confidence := Some (js "low"); confidence_reasoning := None;
     estimated_value_hint := Some (js "$20");
     photoIndex := 0; photoUrl := []; ebay := None |}.

Definition noOptions : Options :=
  {| maxResults := None; categoryId := None; minPrice := None; maxPrice := None |}.

(** A marketplace that is down. *)
Definition unreachable : nat -> Request -> HttpOutcome :=
  fun _ _ => FetchRejected (Exn TypeError (js "fetch failed")).

(** A marketplace that answers every request with status 503. *)
Definition overloaded : nat -> Request -> HttpOutcome :=
  fun _ _ => Responded false 503 (Thrown (Exn SyntaxError (js "Unexpected token"))).

(** A marketplace that knows one sale of 25 cents for the phrase
    "transit token" and none for any other phrase. *)
Definition soldFor (price : Q) : SoldItem :=
  {| title := js "Transit token"; soldPrice := Some price; currency := js "USD";
     soldDate := None; condition := js "Unknown"; listingType := js "Auction";
     imageUrl := None; itemUrl := None |}.

Definition keywordsOf (req : Request) : option jsstring :=
  snd <$> List.find (fun kv => bool_decide (kv.1 = js "keywords")) (params req).

Definition tokenMarket : nat -> Request -> HttpOutcome :=
  fun _ req =>
    Responded true 200
      (Returned {| ack := Some (js "Success"); errorMessage := None;
                   soldItems := if decide (keywordsOf req = Some (js "transit token"))
                                then [soldFor 0.25] else [];
                   totalEntries := 1 |}).

Definition onePhoto : Photo := {| url := js "https://example.org/1.jpg"; thumbnailUrl := None |}.

Definition oneSale : jsstring -> outcome SaleDetails :=
  fun _ => Returned {| saleOk := true; saleStatus := 200; pictures := [onePhoto] |}.

Definition requestFor (id : string) : RequestBody :=
  {| saleId := Some (js id); saleTitle := None; saleAddress := None; maxPhotos := None |}.

(** A search that found two priced sales and one without price. *)
Definition twoSales : SearchResponse :=
  {| ack := Some (js "Success"); errorMessage := None;
     soldItems := [soldFor 10; {| title := js "Unpriced"; soldPrice := None;
                                  currency := js "USD"; soldDate := None;
                                  condition := js "Unknown"; listingType := js "Unknown";
                                  imageUrl := None; itemUrl := None |};
                   soldFor 20.5];
     totalEntries := 3 |}.

(** A stand-in for [JSON.parse] that reads the empty array and refuses
    every other text. *)
Definition onlyEmptyArray (s : jsstring) : outcome JSON :=
  if decide (s = js "[]") then Returned (JArray [])
  else Thrown (Exn SyntaxError (js "Unexpected token")).

(** A marketplace that answers every search with [twoSales]. *)
Definition steadyMarket : nat -> Request -> HttpOutcome :=
  fun _ _ => Responded true 200 (Returned twoSales).

(** Whether a response is an answer of the handler. *)
Definition answered (r : Response) : bool :=
  match r with
  | NoResponse => false
  | _ => true
  end.

(** ** Notions used to state the properties *)

(** The bigrams of a string, in the order in which both loops of
    [similarity] visit them. *)
Definition bigramsOf (s : jsstring) : list (list N) :=
  (fun i => substring s i (i + 2)) <$> seq 0 (length s - 1).

(** A list in descending order of a numeric key. *)
Definition descendingBy {A : Type} (key : A -> Z) (l : list A) : Prop :=
  StronglySorted (fun a b => (key b <= key a)%Z) l.

(** The confidence of the item is not the name of an inherited
    property: the comparator is a number on such items.  The levels
    high, medium and low, any other label and a missing confidence
    qualify. *)
Definition plainConfidence (item : Item) : Prop :=
  match confidence item with
  | Some s => s ∉ inheritedKeys
  | None => True
  end.

#[global] Instance plainConfidence_dec (item : Item) : Decision (plainConfidence item) :=
  match confidence item as c
        return Decision (match c with Some s => s ∉ inheritedKeys | None => True end) with
  | Some s => decide (s ∉ inheritedKeys)
  | None => left I
  end.

(** The confidence rank of an item of plain confidence: 3, 2, 1 or 0. *)
Definition rankOf (item : Item) : Z := default 0%Z (confidenceRank (confidence item)).

(** The fields of an item that decide sorting and duplicate detection;
    a merge changes none of them. *)
Definition keysOf (item : Item)
  : option jsstring * option jsstring * option jsstring * option jsstring :=
  (name item, category item, search_query item, confidence item).

(** The precondition of the deduplicator: name and search phrase are
    strings. *)
Definition hasStrings (item : Item) : Prop :=
  is_Some (name item) ∧ is_Some (search_query item).

Section DuplicateTest.
Variable toLowerCase : jsstring -> jsstring.
Variables nameThreshold queryThreshold : Q.

(** The test of lines 104-107 for one kept item: [Returned true] when
    [item] is a duplicate of [existing]. *)
Definition isDuplicateOf (item existing : Item) : outcome bool :=
  if decide (category item ≠ category existing) then mret false
  else
    nameSim ← similarityCall toLowerCase (name item) (name existing);
    querySim ← similarityCall toLowerCase (search_query item) (search_query existing);
    mret (Qle_bool nameThreshold nameSim || Qle_bool queryThreshold querySim).

(** No item of the list is a duplicate of an item before it. *)
Definition clean (kept : list Item) : Prop :=
  ∀ i j a b, i < j -> kept !! i = Some a -> kept !! j = Some b ->
             isDuplicateOf b a = Returned false.
End DuplicateTest.

(** The value the specification sorts by: the marketplace median when
    comp data is attached, else the parsed estimate. *)
Definition bestKnownValue (a : Item) : Z :=
  match ebay a with
  | Some e => median e
  | None => parseEstimate (estimated_value_hint a)
  end.

(** The price filter the specification describes for bounds [L] and
    [H]: 30% of the low bound through 3 times the high bound. *)
Definition widenedAsSpecified (options : Options) (L H : Z) : Prop :=
  (∃ lowest, minPrice options = Some lowest ∧ (inject_Z lowest == 0.3 * inject_Z L)%Q) ∧
  maxPrice options = Some (3 * H)%Z.

(** What one item adds to the trace of [batchPriceLookup]: nothing
    without search phrase; otherwise the call of the price lookup,
    followed by the request when the credential is configured. *)
Definition eventsOf (EBAY_APP_ID : option jsstring) (item : Item) : list Event :=
  if truthy (search_query item) then
    let options := {| maxResults := None; categoryId := None;
                      minPrice := (priceRange item).1;
                      maxPrice := (priceRange item).2 |} in
    let searchQuery := default [] (search_query item) in
    Invoked searchQuery options ::
      (if truthy EBAY_APP_ID
       then [Fetched (buildRequest (default [] EBAY_APP_ID) searchQuery options)]
       else [])
  else [].

(** The notable features of an item, [item.notable_features || []]. *)
Definition featuresOf (item : Item) : list jsstring :=
  default [] (notable_features item).

(** [s] is the item [x] with possibly more notable features: every
    other field is unchanged and no feature of [x] is missing. *)
Definition grownFrom (x s : Item) : Prop :=
  set_notable_features [] s = set_notable_features [] x ∧
  ∀ f, f ∈ featuresOf x -> f ∈ featuresOf s.

(** [params.get(key)] on the parameters of a request. *)
Definition paramOf (key : jsstring) (req : Request) : option jsstring :=
  snd <$> List.find (fun kv => bool_decide (kv.1 = key)) (params req).

(** The requests of a trace, in the order sent. *)
Definition requestsOf (log : list Event) : list Request :=
  omap (fun ev => match ev with Fetched req => Some req | Invoked _ _ => None end) log.

(** The request [findSoldListings] sends for an item. *)
Definition requestFor_item (appId : jsstring) (item : Item) : Request :=
  buildRequest appId (default [] (search_query item))
    {| maxResults := None; categoryId := None;
       minPrice := (priceRange item).1; maxPrice := (priceRange item).2 |}.

(** A non-empty run of decimal digits. *)
Definition digitRun (m : jsstring) : Prop :=
  m ≠ [] ∧ Forall (fun c => isDigit c = true) m.

(** * Properties *)

(** ** Similarity scorer *)

Section SimilarityFacts.
Variable toLowerCase : jsstring -> jsstring.

Lemma foldl_over_fmap {A B C} (f : A -> B -> A) (g : C -> B) (l : list C) (a : A) :
  foldl f a (g <$> l) = foldl (fun a c => f a (g c)) a l.
Proof. revert a. induction l as [|c l IH]; intros a; simpl; [done | apply IH]. Qed.

(** Counting: the map holds the multiplicity of every bigram seen. *)
Lemma count_multiplicity (L : list (list N)) (m : gmap (list N) nat)
  (X : gmultiset (list N)) :
  (∀ g, default 0 (m !! g) = multiplicity g X) ->
  ∀ g, default 0 (foldl (fun bigrams bigram =>
                           <[bigram := default 0 (bigrams !! bigram) + 1]> bigrams) m L !! g)
       = multiplicity g (X ⊎ list_to_set_disj L).
Proof.
  revert m X. induction L as [|h L IH]; intros m X HX g; simpl.
  - rewrite HX, multiplicity_disj_union, multiplicity_empty. lia.
  - rewrite (IH _ (X ⊎ {[+ h +]})).
    + rewrite !multiplicity_disj_union. lia.
    + intros k. destruct (decide (h = k)) as [->|Hne].
      * rewrite lookup_insert_eq. simpl. rewrite HX.
        rewrite multiplicity_disj_union, multiplicity_singleton_eq. lia.
      * rewrite lookup_insert_ne by done. rewrite HX.
        rewrite multiplicity_disj_union, multiplicity_singleton_ne by done. lia.
Qed.

Lemma countBigrams_multiplicity (s : jsstring) (g : list N) :
  default 0 (countBigrams s !! g) = multiplicity g (list_to_set_disj (bigramsOf s)).
Proof.
  unfold countBigrams, bigramsOf.
  pose proof (count_multiplicity ((fun i => substring s i (i + 2)) <$> seq 0 (length s - 1))
                ∅ ∅) as H.
  rewrite foldl_over_fmap in H. rewrite H.
  - rewrite multiplicity_disj_union, multiplicity_empty. lia.
  - intros k. rewrite lookup_empty. simpl. by rewrite multiplicity_empty.
Qed.

(** Consuming: every bigram of the scanned list that is still in the
    multiset is removed from it and counted once, so the count is the
    size of the multiset intersection. *)
Lemma consume_intersection (L : list (list N)) (m : gmap (list N) nat) (n : nat)
  (X : gmultiset (list N)) :
  (∀ g, default 0 (m !! g) = multiplicity g X) ->
  (foldl (fun (st : gmap (list N) nat * nat) bigram =>
            let count := default 0 (st.1 !! bigram) in
            if decide (0 < count)
            then (<[bigram := count - 1]> st.1, st.2 + 1)
            else st) (m, n) L).2
  = n + size (X ∩ list_to_set_disj L).
Proof.
  revert m n X. induction L as [|h L IH]; intros m n X HX; simpl.
  - replace (X ∩ ∅) with (∅ : gmultiset (list N)).
    + rewrite gmultiset_size_empty. lia.
    + apply gmultiset_eq. intros k.
      rewrite multiplicity_intersection, multiplicity_empty. lia.
  - destruct (decide (0 < default 0 (m !! h))) as [Hpos|Hzero].
    + rewrite (IH _ _ (X ∖ {[+ h +]})).
      * rewrite HX in Hpos.
        replace (X ∩ ({[+ h +]} ⊎ list_to_set_disj L))
          with ({[+ h +]} ⊎ ((X ∖ {[+ h +]}) ∩ list_to_set_disj L)).
        { rewrite gmultiset_size_disj_union, gmultiset_size_singleton. lia. }
        apply gmultiset_eq. intros k.
        rewrite multiplicity_intersection, !multiplicity_disj_union,
          multiplicity_intersection, multiplicity_difference.
        destruct (decide (h = k)) as [->|Hne].
        -- rewrite multiplicity_singleton_eq. lia.
        -- rewrite multiplicity_singleton_ne by done. lia.
      * intros k. rewrite multiplicity_difference.
        destruct (decide (h = k)) as [->|Hne].
        -- rewrite lookup_insert_eq, multiplicity_singleton_eq. simpl. rewrite HX. lia.
        -- rewrite lookup_insert_ne, multiplicity_singleton_ne by done. rewrite HX. lia.
    + rewrite (IH _ _ X HX). f_equal. f_equal.
      rewrite HX in Hzero.
      apply gmultiset_eq. intros k.
      rewrite !multiplicity_intersection, multiplicity_disj_union.
      destruct (decide (h = k)) as [->|Hne].
      * rewrite multiplicity_singleton_eq. lia.
      * rewrite multiplicity_singleton_ne by done. lia.
Qed.

Lemma intersections_size (aLower bLower : jsstring) :
  (consumeBigrams bLower (countBigrams aLower)).2
  = size (list_to_set_disj (bigramsOf aLower) ∩ list_to_set_disj (bigramsOf bLower)
          : gmultiset (list N)).
Proof.
  unfold consumeBigrams.
  pose proof (consume_intersection (bigramsOf bLower) (countBigrams aLower) 0
                (list_to_set_disj (bigramsOf aLower))
                (countBigrams_multiplicity aLower)) as H.
  unfold bigramsOf at 1 in H. rewrite foldl_over_fmap in H. simpl in H.
  exact H.
Qed.

(** The number of consumed bigrams does not depend on which string is
    counted and which is scanned. *)
Lemma intersections_swap (aLower bLower : jsstring) :
  (consumeBigrams bLower (countBigrams aLower)).2
  = (consumeBigrams aLower (countBigrams bLower)).2.
Proof. rewrite !intersections_size. f_equal. apply (comm_L (∩)). Qed.

Lemma similarity_swap (a b : jsstring) :
  similarity toLowerCase a b = similarity toLowerCase b a.
Proof.
  unfold similarity.
  destruct (decide (toLowerCase a = toLowerCase b)) as [Heq|Hne].
  - rewrite decide_True by done. done.
  - rewrite (decide_False (P := toLowerCase b = toLowerCase a)) by congruence.
    destruct (decide (length (toLowerCase a) < 2 ∨ length (toLowerCase b) < 2)) as [Hs|Hl].
    + rewrite decide_True by tauto. done.
    + rewrite decide_False by tauto.
      rewrite (intersections_swap (toLowerCase a) (toLowerCase b)).
      f_equal. f_equal. lia.
Qed.

(** C9.  The similarity score is symmetric: [similarity(a, b)] equals
    [similarity(b, a)] for all strings, although the bigrams of the
    first argument are counted and those of the second are scanned and
    consumed. *)
Theorem similarity_symmetric (a b : jsstring) :
  similarity toLowerCase a b = similarity toLowerCase b a.
Proof. apply similarity_swap. Qed.

(** C4, as amended.  When the lower-cased strings differ and one of
    them has fewer than two code units, the score is 0. *)
Theorem similarity_short_is_zero (a b : jsstring) :
  toLowerCase a ≠ toLowerCase b ->
  length (toLowerCase a) < 2 ∨ length (toLowerCase b) < 2 ->
  similarity toLowerCase a b = 0%Q.
Proof.
  intros Hne Hshort. unfold similarity.
  rewrite decide_False by done. by rewrite decide_True.
Qed.
End SimilarityFacts.

(** Lower-casing an ASCII string keeps its length, so for ASCII strings
    the length test reads the lengths of the arguments themselves. *)
Lemma toLowerCaseASCII_length (s : jsstring) :
  length (toLowerCaseASCII s) = length s.
Proof. unfold toLowerCaseASCII. apply length_fmap. Qed.

Corollary similarity_short_ascii (a b : jsstring) :
  toLowerCaseASCII a ≠ toLowerCaseASCII b ->
  length a < 2 ∨ length b < 2 ->
  similarity toLowerCaseASCII a b = 0%Q.
Proof.
  intros Hne Hshort. unfold similarity.
  rewrite decide_False by done.
  rewrite decide_True; [done|]. by rewrite !toLowerCaseASCII_length.
Qed.

Lemma similarity_short_is_zero_witness :
  similarity toLowerCaseASCII (js "A") (js "pyrex") = 0%Q.
Proof.
  apply similarity_short_is_zero.
  - vm_compute. discriminate.
  - left. vm_compute. lia.
Defined.

(** C4, as stated, fails: a one-character string compared with itself
    scores 1, because the equality test comes before the length test. *)
Lemma similarity_short_counterexample :
  ¬ (∀ a b : jsstring, length a < 2 ∨ length b < 2 ->
                      similarity toLowerCaseASCII a b = 0%Q).
Proof.
  intros H. specialize (H (js "a") (js "a")).
  assert (Hlen : length (js "a") < 2 ∨ length (js "a") < 2) by (left; vm_compute; lia).
  specialize (H Hlen). vm_compute in H. discriminate H.
Qed.

(** ** Stable sort *)

Section SortAny.
Context {A : Type} (compareFn : A -> A -> Z).

Lemma insertSorted_Permutation (x : A) (l : list A) :
  insertSorted compareFn x l ≡ₚ x :: l.
Proof.
  induction l as [|y l IH]; simpl; [done|].
  destruct (decide (compareFn x y <= 0)%Z); [done|].
  rewrite IH. apply Permutation_swap.
Qed.

Lemma sortBy_Permutation (l : list A) : sortBy compareFn l ≡ₚ l.
Proof.
  induction l as [|x l IH]; simpl; [done|].
  by rewrite insertSorted_Permutation, IH.
Qed.

Lemma insertSorted_elem_of (x y : A) (l : list A) :
  y ∈ insertSorted compareFn x l <-> y = x ∨ y ∈ l.
Proof. by rewrite insertSorted_Permutation, elem_of_cons. Qed.

Lemma sortBy_elem_of (y : A) (l : list A) : y ∈ sortBy compareFn l <-> y ∈ l.
Proof. by rewrite sortBy_Permutation. Qed.

Lemma sortBy_length (l : list A) : length (sortBy compareFn l) = length l.
Proof. by rewrite sortBy_Permutation. Qed.

(** The result depends on the comparator through the pairs of elements
    of the list only. *)
Lemma insertSorted_ext (compareFn' : A -> A -> Z) (x : A) (l : list A) :
  (∀ y, y ∈ l -> compareFn x y = compareFn' x y) ->
  insertSorted compareFn x l = insertSorted compareFn' x l.
Proof.
  induction l as [|z l IH]; intros Heq; simpl; [done|].
  rewrite <- (Heq z) by (apply elem_of_cons; by left).
  rewrite IH; [done|]. intros y Hy. apply Heq, elem_of_cons. by right.
Qed.
End SortAny.

Lemma sortBy_ext {A : Type} (compareFn compareFn' : A -> A -> Z) (l : list A) :
  (∀ x y, x ∈ l -> y ∈ l -> compareFn x y = compareFn' x y) ->
  sortBy compareFn l = sortBy compareFn' l.
Proof.
  induction l as [|x l IH]; intros Heq; simpl; [done|].
  rewrite <- IH by (intros y z Hy Hz; apply Heq; apply elem_of_cons; by right).
  apply insertSorted_ext. intros y Hy. apply sortBy_elem_of in Hy.
  apply Heq; apply elem_of_cons; [by left|by right].
Qed.

Section SortFacts.
Context {A : Type} (key : A -> Z).

Let byKey (a b : A) : Z := (key b - key a)%Z.

Lemma insertSorted_descending (x : A) (l : list A) :
  descendingBy key l -> descendingBy key (insertSorted byKey x l).
Proof.
  unfold descendingBy. induction 1 as [|z l Hl IH Hz]; simpl.
  - repeat constructor.
  - destruct (decide (byKey x z <= 0)%Z) as [Hle|Hgt].
    + constructor; [by constructor|].
      unfold byKey in Hle. constructor; [lia|].
      eapply Forall_impl; [exact Hz|]. simpl. intros; lia.
    + constructor; [exact IH|].
      apply Forall_forall. intros y Hy. apply insertSorted_elem_of in Hy.
      destruct Hy as [->|Hy].
      * unfold byKey in Hgt. lia.
      * rewrite Forall_forall in Hz. by apply Hz.
Qed.

Lemma sortBy_descending (l : list A) : descendingBy key (sortBy byKey l).
Proof.
  induction l as [|x l IH]; simpl.
  - constructor.
  - by apply insertSorted_descending.
Qed.

(** Sorting a list that is already in order leaves it unchanged. *)
Lemma sortBy_sorted (l : list A) : descendingBy key l -> sortBy byKey l = l.
Proof.
  unfold descendingBy. induction 1 as [|x l Hl IH Hx]; simpl; [done|].
  rewrite IH. destruct l as [|z l]; simpl; [done|].
  rewrite decide_True; [done|].
  apply Forall_cons in Hx as [Hz _]. unfold byKey. lia.
Qed.
End SortFacts.

Lemma descendingBy_fmap {A : Type} (key : A -> Z) (l : list A) :
  descendingBy id (key <$> l) <-> descendingBy key l.
Proof.
  unfold descendingBy. induction l as [|x l IH]; csimpl.
  - split; constructor.
  - rewrite !StronglySorted_cons, Forall_fmap, IH. done.
Qed.

(** Dropping one element keeps a list in order. *)
Lemma descendingBy_drop_middle {A : Type} (key : A -> Z) (l1 l2 : list A) (x : A) :
  descendingBy key (l1 ++ x :: l2) -> descendingBy key (l1 ++ l2).
Proof.
  unfold descendingBy. rewrite !StronglySorted_app, StronglySorted_cons.
  intros (Hcross & H1 & _ & H2). split_and!; [|done..].
  intros x1 x2 Hx1 Hx2. apply Hcross; [done|]. by apply elem_of_cons; right.
Qed.

(** ** Item deduplicator *)

(** On items of plain confidence the comparator is the difference of
    the ranks. *)
Lemma plainConfidence_ranked (item : Item) :
  plainConfidence item -> confidenceRank (confidence item) = Some (rankOf item).
Proof.
  unfold plainConfidence, rankOf, confidenceRank.
  destruct (confidence item) as [s|]; [|done].
  intros Hs. by repeat case_decide.
Qed.

Lemma byConfidence_plain (a b : Item) :
  plainConfidence a -> plainConfidence b ->
  byConfidence a b = (rankOf b - rankOf a)%Z.
Proof.
  intros Ha Hb. unfold byConfidence.
  by rewrite (plainConfidence_ranked a Ha), (plainConfidence_ranked b Hb).
Qed.

Lemma sortBy_byConfidence (l : list Item) :
  Forall plainConfidence l ->
  sortBy byConfidence l = sortBy (fun a b => (rankOf b - rankOf a)%Z) l.
Proof.
  intros Hl. apply sortBy_ext. intros x y Hx Hy.
  rewrite Forall_forall in Hl. apply byConfidence_plain; by apply Hl.
Qed.



Section DeduplicateFacts.
Variable toLowerCase : jsstring -> jsstring.
Variables nameThreshold queryThreshold : Q.

Abbreviation findDup := (findDuplicate toLowerCase nameThreshold queryThreshold).
Abbreviation isDup := (isDuplicateOf toLowerCase nameThreshold queryThreshold).
Abbreviation loop := (dedupLoop toLowerCase nameThreshold queryThreshold).
Abbreviation dedup := (deduplicateItems toLowerCase nameThreshold queryThreshold).

Lemma similarityCall_swap (a b : option jsstring) :
  similarityCall toLowerCase a b = similarityCall toLowerCase b a.
Proof.
  destruct a as [a|], b as [b|]; simpl; try done.
  by rewrite similarity_swap.
Qed.

(** One step of the inner loop, in terms of the duplicate test. *)
Lemma findDuplicate_cons (item existing : Item) (rest : list Item) :
  findDup item (existing :: rest) =
    d ← isDup item existing;
    if d : bool
    then mret (Some (set_notable_features (mergeFeatures existing item) existing :: rest))
    else (λ r : option (list Item), cons existing <$> r) <$> findDup item rest.
Proof.
  simpl. unfold isDuplicateOf.
  destruct (decide (category item ≠ category existing)); [done|].
  destruct (similarityCall toLowerCase (name item) (name existing)); [|done].
  destruct (similarityCall toLowerCase (search_query item) (search_query existing)); done.
Qed.

Lemma isDuplicateOf_keys (item item' existing existing' : Item) :
  keysOf item = keysOf item' -> keysOf existing = keysOf existing' ->
  isDup item existing = isDup item' existing'.
Proof.
  unfold keysOf, isDuplicateOf. intros [= -> -> -> _] [= -> -> -> _]. done.
Qed.

Lemma keysOf_set_notable_features (v : list jsstring) (item : Item) :
  keysOf (set_notable_features v item) = keysOf item.
Proof. done. Qed.

(** No kept item matches exactly when the test fails for all of them. *)
Lemma findDuplicate_None (item : Item) (kept : list Item) :
  findDup item kept = Returned None <->
  Forall (fun existing => isDup item existing = Returned false) kept.
Proof.
  induction kept as [|existing rest IH].
  - simpl. split; [constructor | done].
  - rewrite findDuplicate_cons, Forall_cons.
    destruct (isDup item existing) as [[|]|e]; simpl.
    + split; [done | intros [? _]; done].
    + rewrite <- IH. destruct (findDup item rest) as [[k|]|e]; simpl;
        split; try done; intros [_ ?]; done.
    + split; [done | intros [? _]; done].
Qed.

(** A merge changes no key of the kept items. *)
Lemma findDuplicate_Some_keys (item : Item) (kept kept' : list Item) :
  findDup item kept = Returned (Some kept') -> keysOf <$> kept' = keysOf <$> kept.
Proof.
  revert kept'. induction kept as [|existing rest IH]; intros kept'.
  - done.
  - rewrite findDuplicate_cons.
    destruct (isDup item existing) as [[|]|e]; simpl; [|  |done].
    + intros [= <-]. done.
    + destruct (findDup item rest) as [[k|]|e]; simpl; [|done..].
      intros [= <-]. csimpl. f_equal. by apply IH.
Qed.

Lemma clean_keys (k1 k2 : list Item) :
  keysOf <$> k1 = keysOf <$> k2 ->
  clean toLowerCase nameThreshold queryThreshold k1 ->
  clean toLowerCase nameThreshold queryThreshold k2.
Proof.
  intros Hk Hc i j a b Hij Ha Hb.
  assert (Hi : (keysOf <$> k1) !! i = Some (keysOf a))
    by (rewrite Hk, list_lookup_fmap, Ha; done).
  assert (Hj : (keysOf <$> k1) !! j = Some (keysOf b))
    by (rewrite Hk, list_lookup_fmap, Hb; done).
  rewrite list_lookup_fmap in Hi, Hj.
  destruct (k1 !! i) as [a'|] eqn:Ha'; [|done].
  destruct (k1 !! j) as [b'|] eqn:Hb'; [|done].
  simpl in Hi, Hj. apply (inj Some) in Hi. apply (inj Some) in Hj.
  rewrite <- (isDuplicateOf_keys b' b a' a) by done.
  by apply (Hc i j).
Qed.

Lemma clean_nil : clean toLowerCase nameThreshold queryThreshold [].
Proof. intros i j a b _ Ha. done. Qed.

Lemma clean_snoc (kept : list Item) (item : Item) :
  clean toLowerCase nameThreshold queryThreshold kept ->
  Forall (fun existing => isDup item existing = Returned false) kept ->
  clean toLowerCase nameThreshold queryThreshold (kept ++ [item]).
Proof.
  intros Hc Hall i j a b Hij Ha Hb.
  assert (Hj : j < length (kept ++ [item])) by (by eapply lookup_lt_Some).
  rewrite length_app in Hj. simpl in Hj.
  rewrite lookup_app_l in Ha by lia.
  destruct (decide (j < length kept)) as [Hlt|Hge].
  - rewrite lookup_app_l in Hb by lia. by apply (Hc i j).
  - rewrite lookup_app_r in Hb by lia.
    replace (j - length kept) with 0 in Hb by lia. injection Hb as <-.
    rewrite Forall_forall in Hall. apply Hall.
    by eapply list_elem_of_lookup_2.
Qed.

Lemma clean_before (kept rest : list Item) (item : Item) :
  clean toLowerCase nameThreshold queryThreshold (kept ++ item :: rest) ->
  Forall (fun existing => isDup item existing = Returned false) kept.
Proof.
  intros Hc. apply Forall_forall. intros existing Hin.
  apply list_elem_of_lookup_1 in Hin as [i Hi].
  apply (Hc i (length kept)).
  - by eapply lookup_lt_Some.
  - by rewrite lookup_app_l by (by eapply lookup_lt_Some).
  - by rewrite list_lookup_middle.
Qed.

(** The outer loop keeps the kept list free of duplicates. *)
Lemma dedupLoop_clean (sorted kept out : list Item) :
  loop sorted kept = Returned out ->
  clean toLowerCase nameThreshold queryThreshold kept ->
  clean toLowerCase nameThreshold queryThreshold out.
Proof.
  revert kept. induction sorted as [|item sorted IH]; intros kept; simpl.
  - by intros [= <-].
  - destruct (findDup item kept) as [[kept'|]|e] eqn:Hfind; simpl; [| |done].
    + intros Hloop Hc. apply (IH kept' Hloop).
      apply (clean_keys kept); [|done].
      symmetry. by eapply findDuplicate_Some_keys.
    + intros Hloop Hc. apply (IH _ Hloop).
      apply clean_snoc; [done|]. by apply findDuplicate_None.
Qed.

(** On a list without duplicates the loop keeps every item. *)
Lemma dedupLoop_fixed (rest kept : list Item) :
  clean toLowerCase nameThreshold queryThreshold (kept ++ rest) ->
  loop rest kept = Returned (kept ++ rest).
Proof.
  revert kept. induction rest as [|item rest IH]; intros kept Hc; simpl.
  - by rewrite app_nil_r.
  - apply clean_before in Hc as Hall. apply findDuplicate_None in Hall.
    rewrite Hall. simpl. rewrite IH; rewrite <- app_assoc; done.
Qed.

(** The kept list stays in descending confidence order. *)
Lemma dedupLoop_descending (sorted kept out : list Item) :
  loop sorted kept = Returned out ->
  descendingBy rankOf (kept ++ sorted) -> descendingBy rankOf out.
Proof.
  revert kept. induction sorted as [|item sorted IH]; intros kept; simpl.
  - intros [= <-]. by rewrite app_nil_r.
  - destruct (findDup item kept) as [[kept'|]|e] eqn:Hfind; simpl; [| |done].
    + intros Hloop Hd. apply (IH kept' Hloop).
      apply descendingBy_drop_middle in Hd.
      apply descendingBy_fmap. apply descendingBy_fmap in Hd.
      rewrite fmap_app in *.
      apply findDuplicate_Some_keys in Hfind.
      replace (rankOf <$> kept') with (rankOf <$> kept); [done|].
      apply (f_equal (fmap (fun k : _ * _ * _ * option jsstring =>
                              default 0%Z (confidenceRank k.2)))) in Hfind.
      rewrite <- !list_fmap_compose in Hfind. symmetry. exact Hfind.
    + intros Hloop Hd. apply (IH _ Hloop). by rewrite <- app_assoc.
Qed.

Lemma isDuplicateOf_total (item existing : Item) :
  hasStrings item -> hasStrings existing -> ∃ d, isDup item existing = Returned d.
Proof.
  intros [[n Hn] [q Hq]] [[n' Hn'] [q' Hq']]. unfold isDuplicateOf.
  destruct (decide (category item ≠ category existing)); [by eexists|].
  rewrite Hn, Hn', Hq, Hq'. simpl. by eexists.
Qed.

Lemma findDuplicate_total (item : Item) (kept : list Item) :
  hasStrings item -> Forall hasStrings kept ->
  ∃ r, findDup item kept = Returned r ∧
       ∀ kept', r = Some kept' -> Forall hasStrings kept'.
Proof.
  intros Hitem. induction 1 as [|existing rest Hex Hrest IH].
  - exists None. done.
  - rewrite findDuplicate_cons.
    destruct (isDuplicateOf_total item existing Hitem Hex) as [[|] ->]; simpl.
    + eexists. split; [done|]. intros kept' [= <-]. by constructor.
    + destruct IH as (r & -> & Hr). simpl. eexists. split; [done|].
      destruct r as [k|]; simpl; intros kept' [= <-].
      constructor; [done|]. by apply Hr.
Qed.

Lemma dedupLoop_total (sorted kept : list Item) :
  Forall hasStrings sorted -> Forall hasStrings kept ->
  ∃ out, loop sorted kept = Returned out.
Proof.
  intros Hs. revert kept. induction Hs as [|item sorted Hitem Hs IH]; intros kept Hk; simpl.
  - by eexists.
  - destruct (findDuplicate_total item kept Hitem Hk) as (r & -> & Hr). simpl.
    destruct r as [kept'|].
    + apply IH. by apply Hr.
    + apply IH. apply Forall_app. split; [done|]. by constructor.
Qed.

Lemma deduplicateItems_total (items : list Item) :
  Forall hasStrings items -> ∃ out, dedup items = Returned out.
Proof.
  intros H. apply dedupLoop_total; [|constructor].
  apply Forall_forall. intros x Hx.
  pose proof (proj1 (sortBy_elem_of byConfidence x items) Hx) as Hin.
  rewrite Forall_forall in H. by apply H.
Qed.

(** What a failed duplicate test says about two items of one
    category. *)
Lemma isDuplicateOf_false_inv (item existing : Item) :
  isDup item existing = Returned false ->
  category item = category existing ->
  ∃ nameSim querySim,
    similarityCall toLowerCase (name item) (name existing) = Returned nameSim ∧
    similarityCall toLowerCase (search_query item) (search_query existing)
      = Returned querySim ∧
    (nameSim < nameThreshold)%Q ∧ (querySim < queryThreshold)%Q.
Proof.
  unfold isDuplicateOf. intros H Hcat.
  rewrite decide_False in H by (intros Hne; by apply Hne).
  destruct (similarityCall toLowerCase (name item) (name existing)) as [ns|e]; [|done].
  destruct (similarityCall toLowerCase (search_query item) (search_query existing))
    as [qs|e]; [|done].
  simpl in H. injection H as H. apply orb_false_iff in H as [Hn Hq].
  exists ns, qs. split_and!; [done..| |].
  - apply Qnot_le_lt. intros Hle. apply Qle_bool_iff in Hle. congruence.
  - apply Qnot_le_lt. intros Hle. apply Qle_bool_iff in Hle. congruence.
Qed.

Lemma clean_pairwise (out : list Item) (i j : nat) (a b : Item) :
  clean toLowerCase nameThreshold queryThreshold out ->
  i ≠ j -> out !! i = Some a -> out !! j = Some b -> category a = category b ->
  ∃ nameSim querySim,
    similarityCall toLowerCase (name a) (name b) = Returned nameSim ∧
    similarityCall toLowerCase (search_query a) (search_query b) = Returned querySim ∧
    (nameSim < nameThreshold)%Q ∧ (querySim < queryThreshold)%Q.
Proof.
  intros Hc Hij Ha Hb Hcat.
  destruct (decide (i < j)) as [Hlt|Hge].
  - rewrite (similarityCall_swap (name a)), (similarityCall_swap (search_query a)).
    apply isDuplicateOf_false_inv; [|done]. by apply (Hc i j).
  - apply isDuplicateOf_false_inv; [|done]. apply (Hc j i); [lia|done..].
Qed.


Lemma deduplicateItems_clean (items out : list Item) :
  dedup items = Returned out ->
  clean toLowerCase nameThreshold queryThreshold out.
Proof. intros H. eapply dedupLoop_clean; [exact H | apply clean_nil]. Qed.

Lemma deduplicateItems_descending (items out : list Item) :
  Forall plainConfidence items ->
  dedup items = Returned out -> descendingBy rankOf out.
Proof.
  intros Hplain H. eapply dedupLoop_descending; [exact H|].
  simpl. rewrite (sortBy_byConfidence items Hplain).
  apply (sortBy_descending rankOf).
Qed.

End DeduplicateFacts.

Lemma foldl_setAdd_elem_of (acc l : list jsstring) (f : jsstring) :
  f ∈ foldl setAdd acc l <-> f ∈ acc ∨ f ∈ l.
Proof.
  revert acc. induction l as [|g l IH]; intros acc; simpl.
  - rewrite elem_of_nil. tauto.
  - rewrite IH, elem_of_cons. unfold setAdd.
    destruct (decide (g ∈ acc)) as [Hin|Hout].
    + split; [tauto|]. intros [?|[->|?]]; tauto.
    + rewrite elem_of_app, list_elem_of_singleton. tauto.
Qed.


Lemma mergeFeatures_elem_of (existing item : Item) (f : jsstring) :
  f ∈ mergeFeatures existing item <->
  f ∈ default [] (notable_features existing) ∨ f ∈ default [] (notable_features item).
Proof.
  unfold mergeFeatures. rewrite !foldl_setAdd_elem_of, elem_of_nil. tauto.
Qed.


Section DeduplicateDefaults.
Variable toLowerCase : jsstring -> jsstring.

Abbreviation dedupDefault :=
  (deduplicateItems toLowerCase defaultNameThreshold defaultQueryThreshold).

(** C1.  With the default thresholds the deduplicator returns for
    every collection whose names and search phrases are strings, and
    in whatever it returns no two distinct items of one category have
    a name similarity of 0.75 or more, or a search-phrase similarity of
    0.70 or more. *)
Theorem deduplicateItems_no_near_duplicates (items : list Item) :
  (Forall hasStrings items -> ∃ out, dedupDefault items = Returned out) ∧
  (∀ out i j a b,
     dedupDefault items = Returned out ->
     i ≠ j -> out !! i = Some a -> out !! j = Some b ->
     category a = category b ->
     ∃ nameSim querySim,
       similarityCall toLowerCase (name a) (name b) = Returned nameSim ∧
       similarityCall toLowerCase (search_query a) (search_query b)
         = Returned querySim ∧
       (nameSim < 0.75)%Q ∧ (querySim < 0.70)%Q).
Proof.
  split; [apply deduplicateItems_total|].
  intros out i j a b Hout Hij Ha Hb Hcat.
  apply deduplicateItems_clean in Hout.
  by apply (clean_pairwise toLowerCase _ _ out i j).
Qed.


(** C10.  The deduplicator returns whenever every name and search
    phrase is a string; an item without search phrase makes it throw,
    and the exception fails the whole analysis with status 500. *)
Theorem deduplicateItems_total_only_on_strings :
  (∀ items, Forall hasStrings items -> ∃ out, dedupDefault items = Returned out) ∧
  (∃ item items,
     item ∈ items ∧ search_query item = None ∧
     dedupDefault items = Thrown (notAString "toLowerCase")) ∧
  (∃ item items,
     item ∈ items ∧ name item = None ∧
     dedupDefault items = Thrown (notAString "toLowerCase")) ∧
  (∀ ANTHROPIC_API_KEY EBAY_APP_ID network saleDetails vision nPhotos nPictures allItems e,
     dedupDefault allItems = Thrown e ->
     analyzeItems toLowerCase EBAY_APP_ID network nPhotos nPictures allItems = Thrown e ∧
     ∀ body sale,
       truthy (saleId body) = true -> truthy ANTHROPIC_API_KEY = true ->
       saleDetails (default [] (saleId body)) = Returned sale ->
       saleOk sale = true -> pictures sale ≠ [] ->
       mjoin (imap (analyzePhoto vision)
                (take (default 10 (maxPhotos body)) (pictures sale))) = allItems ->
       POST toLowerCase ANTHROPIC_API_KEY EBAY_APP_ID network saleDetails vision
            (Returned body)
       = Failure 500 (js "Analysis failed") (Some (message e))).
Proof.
  split_and!.
  - intros items. apply deduplicateItems_total.
  - exists (noQuery "Pyrex 401 bowl" "kitchenware" "high"),
      [pyrexMedium; noQuery "Pyrex 401 bowl" "kitchenware" "high"].
    split_and!; [set_solver | done | done].
- exists (noName "kitchenware" "high" "pyrex 401 bowl"),
    [pyrexMedium; noName "kitchenware" "high" "pyrex 401 bowl"].
  split_and!; [set_solver | done | done].
  - intros key ebayKey network saleDetails vision nPhotos nPictures allItems e Hthrow.
    assert (Han : ∀ n m, analyzeItems toLowerCase ebayKey network n m allItems = Thrown e).
    { intros n m. unfold analyzeItems. rewrite Hthrow. done. }
    split; [apply Han|].
    intros body sale Hid Hkey Hsale Hok Hpics Hall.
    unfold POST, handle. simpl. rewrite Hid, Hkey. simpl. rewrite Hsale. simpl.
    rewrite Hok. simpl.
    rewrite decide_False by (destruct (pictures sale); done).
    rewrite Hall, Han. done.
Qed.
End DeduplicateDefaults.

(** ** Marketplace client *)

Lemma mathRound_times_3 (h : Z) : mathRound (inject_Z h * 3) = (3 * h)%Z.
Proof.
  unfold mathRound, Qfloor, Qplus, Qmult, inject_Z. simpl.
  change (Z.pos (1 * 1)) with 1%Z. change (Z.pos (1 * 1 * 2)) with 2%Z.
  symmetry. apply (Z.div_unique _ _ _ 1); lia.
Qed.

Lemma mathRound_times_03 (l : Z) : mathRound (inject_Z l * 0.3) = ((3 * l + 5) / 10)%Z.
Proof.
  unfold mathRound, Qfloor, Qplus, Qmult, inject_Z. simpl.
  change (Z.pos (1 * 10)) with 10%Z. change (Z.pos (1 * 10 * 2)) with (10 * 2)%Z.
  replace (l * 3 * 2 + 1 * 10)%Z with ((3 * l + 5) * 2)%Z by lia.
  rewrite Z.div_mul_cancel_r by lia. done.
Qed.

Section MarketplaceFacts.
Variable EBAY_APP_ID : option jsstring.
Variable network : nat -> Request -> HttpOutcome.

Abbreviation lookupOne := (lookupItem EBAY_APP_ID network).
Abbreviation settleAll := (allSettled EBAY_APP_ID network).

Lemma filter_isFetched_snoc_Invoked (log : list Event) q options :
  filter isFetched (log ++ [Invoked q options]) = filter isFetched log.
Proof. rewrite filter_app. simpl. apply app_nil_r. Qed.

(** One call of the price lookup, run from a trace. *)
Lemma findSoldListings_run (searchQuery : jsstring) (options : Options) (log : list Event) :
  findSoldListings EBAY_APP_ID network searchQuery options log =
  if truthy EBAY_APP_ID then
    let url := buildRequest (default [] EBAY_APP_ID) searchQuery options in
    (Returned match readResponse (network (length (filter isFetched log)) url) with
              | Returned v => v
              | Thrown err => Unavailable (message err)
              end,
     log ++ [Invoked searchQuery options; Fetched url])
  else (Returned (Unavailable (js "EBAY_APP_ID not configured")),
        log ++ [Invoked searchQuery options]).
Proof.
  unfold findSoldListings, mbind, Net_bind, record, fetch. simpl.
  destruct (truthy EBAY_APP_ID); [|done].
  rewrite filter_isFetched_snoc_Invoked.
  destruct (readResponse _); simpl; by rewrite <- app_assoc.
Qed.

Lemma findSoldListings_returns (searchQuery : jsstring) (options : Options)
  (log : list Event) :
  ∃ v, (findSoldListings EBAY_APP_ID network searchQuery options log).1 = Returned v.
Proof. rewrite findSoldListings_run. destruct (truthy EBAY_APP_ID); by eexists. Qed.

Lemma findSoldListings_log (searchQuery : jsstring) (options : Options) (log : list Event) :
  (findSoldListings EBAY_APP_ID network searchQuery options log).2 =
  log ++ Invoked searchQuery options ::
    (if truthy EBAY_APP_ID
     then [Fetched (buildRequest (default [] EBAY_APP_ID) searchQuery options)]
     else []).
Proof. rewrite findSoldListings_run. by destruct (truthy EBAY_APP_ID). Qed.

(** The callback adds exactly the events of its item to the trace and
    never rejects. *)
Lemma lookupItem_log (item : Item) (log : list Event) :
  (lookupOne item log).2 = log ++ eventsOf EBAY_APP_ID item.
Proof.
  unfold lookupItem, eventsOf.
  destruct (truthy (search_query item)); simpl.
  - unfold mbind, Net_bind.
    pose proof (findSoldListings_log (default [] (search_query item))
                  {| maxResults := None; categoryId := None;
                     minPrice := (priceRange item).1;
                     maxPrice := (priceRange item).2 |} log) as Hlog.
    destruct (findSoldListings _ _ _ _ log) as [settled log'].
    simpl in Hlog. subst log'. by destruct settled.
  - by rewrite app_nil_r.
Qed.

Lemma lookupItem_no_query (item : Item) (log : list Event) :
  truthy (search_query item) = false ->
  lookupOne item log =
  (Returned {| itemName := name item; ebayLookup := Unavailable (js "No search query") |},
   log).
Proof. intros H. unfold lookupItem. rewrite H. done. Qed.

Lemma allSettled_cons (item : Item) (batch : list Item) (log : list Event) :
  settleAll (item :: batch) log =
  ((lookupOne item log).1 :: (settleAll batch (lookupOne item log).2).1,
   (settleAll batch (lookupOne item log).2).2).
Proof.
  simpl. unfold mbind, Net_bind.
  destruct (lookupOne item log) as [r log1]. simpl.
  destruct (settleAll batch log1) as [rs log2]. done.
Qed.

Lemma allSettled_app (l1 l2 : list Item) (log : list Event) :
  settleAll (l1 ++ l2) log =
  ((settleAll l1 log).1 ++ (settleAll l2 (settleAll l1 log).2).1,
   (settleAll l2 (settleAll l1 log).2).2).
Proof.
  revert log. induction l1 as [|item l1 IH]; intros log.
  - simpl. by destruct (settleAll l2 log).
  - rewrite <- app_comm_cons, !allSettled_cons, IH. done.
Qed.

Lemma allSettled_log (items : list Item) (log : list Event) :
  (settleAll items log).2 = log ++ flat_map (eventsOf EBAY_APP_ID) items.
Proof.
  revert log. induction items as [|item items IH]; intros log.
  - simpl. by rewrite app_nil_r.
  - rewrite allSettled_cons. simpl. rewrite IH, lookupItem_log, <- app_assoc. done.
Qed.

Lemma allSettled_lookup (items : list Item) (log : list Event) (k : nat) (item : Item) :
  items !! k = Some item ->
  (settleAll items log).1 !! k =
  Some (lookupOne item (log ++ flat_map (eventsOf EBAY_APP_ID) (take k items))).1.
Proof.
  revert log k. induction items as [|x items IH]; intros log k Hk; [done|].
  rewrite allSettled_cons. destruct k as [|k]; simpl in *.
  - injection Hk as ->. by rewrite app_nil_r.
  - rewrite (IH _ k Hk), lookupItem_log, <- app_assoc. done.
Qed.

(** With a positive batch size and enough fuel the loop settles every
    remaining item, in order. *)
Lemma batchLoop_run (items : list Item) (concurrency : nat) :
  0 < concurrency ->
  ∀ fuel i results log,
    length items - i < fuel ->
    batchLoop EBAY_APP_ID network fuel items concurrency i results log =
    (Some (results ++ (collect <$> (settleAll (drop i items) log).1)),
     (settleAll (drop i items) log).2).
Proof.
  intros Hc. induction fuel as [|fuel IH]; intros i results log Hfuel; [lia|].
  simpl. destruct (decide (i < length items)) as [Hlt|Hge].
  - unfold mbind, Net_bind.
    rewrite <- (take_drop concurrency (drop i items)) at 2 3.
    rewrite allSettled_app.
    destruct (settleAll (take concurrency (drop i items)) log) as [rs log1]. simpl.
    rewrite IH by lia. rewrite drop_drop, fmap_app, app_assoc. done.
  - rewrite drop_ge by lia. simpl. by rewrite app_nil_r.
Qed.

Lemma batchPriceLookup_run (items : list Item) (concurrency : nat) (log : list Event) :
  0 < concurrency ->
  batchPriceLookup EBAY_APP_ID network items concurrency log =
  (Some (collect <$> (settleAll items log).1),
   log ++ flat_map (eventsOf EBAY_APP_ID) items).
Proof.
  intros Hc. unfold batchPriceLookup.
  rewrite (batchLoop_run items concurrency Hc) by lia.
  rewrite drop_0, allSettled_log. done.
Qed.
End MarketplaceFacts.

Section MarketplaceClaims.
Variable EBAY_APP_ID : option jsstring.
Variable network : nat -> Request -> HttpOutcome.

(** C6.  The price lookup never rejects: whatever the query, the
    options and the outcome of the request, it returns a value, and on
    a missing credential, a network failure, a non-success status, an
    unreadable body or a marketplace-reported error that value is
    [{available: false, reason}] with the corresponding message. *)
Theorem findSoldListings_never_throws (searchQuery : jsstring) (options : Options)
  (log : list Event) :
  ∃ v,
    (findSoldListings EBAY_APP_ID network searchQuery options log).1 = Returned v ∧
    (truthy EBAY_APP_ID = false -> v = Unavailable (js "EBAY_APP_ID not configured")) ∧
    (truthy EBAY_APP_ID = true ->
     let response := network (length (filter isFetched log))
                       (buildRequest (default [] EBAY_APP_ID) searchQuery options) in
     (∀ e, response = FetchRejected e -> v = Unavailable (message e)) ∧
     (∀ status body, response = Responded false status body ->
                     v = Unavailable (js "eBay API error: " ++ js (pretty status))) ∧
     (∀ status e, response = Responded true status (Thrown e) ->
                  v = Unavailable (message e)) ∧
     (∀ status data, response = Responded true status (Returned data) ->
                     ack data ≠ Some (js "Success") ->
                     v = Unavailable (if truthy (errorMessage data)
                                      then default [] (errorMessage data)
                                      else js "Unknown eBay API error"))).
Proof.
  rewrite findSoldListings_run. destruct (truthy EBAY_APP_ID).
  - eexists. split; [done|]. split; [done|]. intros _ response. subst response.
    split_and!.
    + intros e ->. done.
    + intros status body ->. done.
    + intros status e ->. done.
    + intros status data -> Hack. simpl. by rewrite decide_True.
  - eexists. split; [done|]. split; [done|]. done.
Qed.

(** C7, as amended.  For an item with a search phrase whose value hint
    holds dollar amounts (low [L] the first, high [H] the second or
    else the first) below 2^50, the batch lookup returns and calls the
    price lookup with [minPrice] = the larger of 1 and 0.3 * L rounded
    to the nearest integer, and [maxPrice] = 3 * H. *)
Theorem batchPriceLookup_price_range (items : list Item) (concurrency : nat)
  (log : list Event) (item : Item) (L : jsstring) (ms : list jsstring) :
  0 < concurrency ->
  item ∈ items ->
  truthy (search_query item) = true ->
  truthy (estimated_value_hint item) = true ->
  dollarAmounts Idle (default [] (estimated_value_hint item)) = L :: ms ->
  let H := match ms with m1 :: _ => m1 | [] => L end in
  (parseInt L < 2 ^ 50)%Z -> (parseInt H < 2 ^ 50)%Z ->
  ∃ results events,
    batchPriceLookup EBAY_APP_ID network items concurrency log
      = (Some results, log ++ events) ∧
    Invoked (default [] (search_query item))
      {| maxResults := None; categoryId := None;
         minPrice := Some (Z.max 1 (mathRound (inject_Z (parseInt L) * 0.3)));
         maxPrice := Some (3 * parseInt H)%Z |}
    ∈ events.
Proof.
  intros Hc Hin Hq Hhint Hamounts H _ _.
  rewrite batchPriceLookup_run by done.
  eexists _, _. split; [done|].
  apply list_elem_of_In, in_flat_map. exists item.
  split; [by apply list_elem_of_In|].
  unfold eventsOf, priceRange. rewrite Hq, Hhint, Hamounts. simpl.
  left. by rewrite mathRound_times_3.
Qed.

(** C8.  An item without search phrase gets the result
    [{available: false, reason: 'No search query'}] under its name, and
    neither a call of the price lookup nor a request is made for it:
    its callback leaves the trace unchanged, and the batch leaves the
    same trace as without the item. *)
Theorem batchPriceLookup_no_search_query (items : list Item) (concurrency : nat)
  (log : list Event) (k : nat) (item : Item) :
  0 < concurrency ->
  items !! k = Some item ->
  truthy (search_query item) = false ->
  let result := {| itemName := name item;
                   ebayLookup := Unavailable (js "No search query") |} in
  lookupItem EBAY_APP_ID network item log = (Returned result, log) ∧
  ∃ results,
    (batchPriceLookup EBAY_APP_ID network items concurrency log).1 = Some results ∧
    results !! k = Some result ∧
    (batchPriceLookup EBAY_APP_ID network items concurrency log).2
    = (batchPriceLookup EBAY_APP_ID network (delete k items) concurrency log).2.
Proof.
  intros Hc Hk Hq result. split; [by apply lookupItem_no_query|].
  rewrite !batchPriceLookup_run by done. simpl.
  eexists. split; [done|]. split.
  - rewrite list_lookup_fmap, (allSettled_lookup _ _ _ _ _ item Hk).
    by rewrite lookupItem_no_query.
  - f_equal. rewrite <- (take_drop_middle items k item Hk) at 1.
    rewrite delete_take_drop, !flat_map_app. simpl.
    unfold eventsOf at 2. rewrite Hq. done.
Qed.
End MarketplaceClaims.

Lemma findSoldListings_never_throws_witness :
  (findSoldListings (Some (js "APP")) overloaded (js "pyrex 401") noOptions []).1
  = Returned (Unavailable (js "eBay API error: 503")).
Proof.
  destruct (findSoldListings_never_throws (Some (js "APP")) overloaded
              (js "pyrex 401") noOptions []) as (v & Hv & _ & Hfail).
  rewrite Hv. f_equal.
  destruct (Hfail eq_refl) as (_ & Hstatus & _).
  apply (Hstatus 503%Z (Thrown (Exn SyntaxError (js "Unexpected token")))).
  reflexivity.
Defined.

Lemma batchPriceLookup_price_range_witness :
  ∃ results events,
    batchPriceLookup (Some (js "APP")) unreachable [lamp; pyrexHigh] 3 []
      = (Some results, [] ++ events) ∧
    Invoked (js "pyrex 401 primary blue")
      {| maxResults := None; categoryId := None;
         minPrice := Some 6%Z; maxPrice := Some 60%Z |} ∈ events.
Proof.
  apply (batchPriceLookup_price_range (Some (js "APP")) unreachable [lamp; pyrexHigh] 3 []
           pyrexHigh (js "20") []).
  - lia.
  - apply elem_of_cons. right. apply elem_of_cons. left. reflexivity.
  - reflexivity.
  - reflexivity.
  - vm_compute. reflexivity.
  - reflexivity.
  - reflexivity.
Defined.

(** C7, as stated, fails: for the hint "$5" the lookup is called with
    [minPrice] 2, which is not 30% of 5. *)
Lemma batchPriceLookup_price_range_counterexample :
  ¬ (∀ (EBAY_APP_ID : option jsstring) (network : nat -> Request -> HttpOutcome)
       (items : list Item) (concurrency : nat) (item : Item) (L : jsstring)
       (ms : list jsstring),
       0 < concurrency -> item ∈ items ->
       truthy (estimated_value_hint item) = true ->
       dollarAmounts Idle (default [] (estimated_value_hint item)) = L :: ms ->
       ∃ searchQuery options,
         Invoked searchQuery options
           ∈ (batchPriceLookup EBAY_APP_ID network items concurrency []).2 ∧
         widenedAsSpecified options (parseInt L)
           (parseInt (match ms with m1 :: _ => m1 | [] => L end))).
Proof.
  intros H.
  destruct (H None unreachable [brassKey] 3 brassKey (js "5") [])
    as (q & options & Hin & (lowest & Hmin & Hlow) & _).
  - lia.
  - apply elem_of_cons. left. reflexivity.
  - reflexivity.
  - vm_compute. reflexivity.
  - rewrite batchPriceLookup_run in Hin by lia. simpl in Hin.
    apply list_elem_of_singleton in Hin. injection Hin as _ ->.
    simpl in Hmin. injection Hmin as <-.
    vm_compute in Hlow. discriminate Hlow.
Qed.

Lemma batchPriceLookup_no_search_query_witness :
  lookupItem (Some (js "APP")) unreachable lamp []
  = (Returned {| itemName := Some (js "Lamp");
                 ebayLookup := Unavailable (js "No search query") |}, []) ∧
  ∃ results,
    (batchPriceLookup (Some (js "APP")) unreachable [pyrexHigh; lamp; corningware] 3 []).1
    = Some results ∧
    results !! 1 = Some {| itemName := Some (js "Lamp");
                           ebayLookup := Unavailable (js "No search query") |} ∧
    (batchPriceLookup (Some (js "APP")) unreachable [pyrexHigh; lamp; corningware] 3 []).2
    = (batchPriceLookup (Some (js "APP")) unreachable [pyrexHigh; corningware] 3 []).2.
Proof.
  apply (batchPriceLookup_no_search_query (Some (js "APP")) unreachable
           [pyrexHigh; lamp; corningware] 3 [] 1 lamp).
  - lia.
  - reflexivity.
  - reflexivity.
Defined.

(** ** Witnesses for the deduplicator *)

Lemma deduplicateItems_no_near_duplicates_witness :
  (∃ out, deduplicateItems toLowerCaseASCII defaultNameThreshold defaultQueryThreshold
            [pyrexMedium; corningware; pyrexHigh] = Returned out) ∧
  ∃ nameSim querySim,
    similarityCall toLowerCaseASCII (name pyrexHigh) (name corningware)
      = Returned nameSim ∧
    similarityCall toLowerCaseASCII (search_query pyrexHigh) (search_query corningware)
      = Returned querySim ∧
    (nameSim < 0.75)%Q ∧ (querySim < 0.70)%Q.
Proof.
  pose proof (deduplicateItems_no_near_duplicates toLowerCaseASCII
                [pyrexMedium; corningware; pyrexHigh]) as [Htotal Hpairs].
  split.
  - apply Htotal. repeat constructor; vm_compute; eexists; reflexivity.
  - apply (Hpairs [set_notable_features (mergeFeatures pyrexHigh pyrexMedium) pyrexHigh;
                   corningware] 0 1
                  (set_notable_features (mergeFeatures pyrexHigh pyrexMedium) pyrexHigh)
                  corningware).
    + vm_compute. reflexivity.
    + lia.
    + reflexivity.
    + reflexivity.
    + reflexivity.
Defined.




Lemma deduplicateItems_total_only_on_strings_witness :
  (∃ out, deduplicateItems toLowerCaseASCII defaultNameThreshold defaultQueryThreshold
            [pyrexMedium; pyrexHigh] = Returned out) ∧
  POST toLowerCaseASCII (Some (js "key")) None unreachable oneSale
       (fun _ _ => Returned [pyrexMedium; noQuery "Pyrex 401 bowl" "kitchenware" "high"])
       (Returned (requestFor "4242"))
  = Failure 500 (js "Analysis failed") (Some (message (notAString "toLowerCase"))).
Proof.
  pose proof (deduplicateItems_total_only_on_strings toLowerCaseASCII)
    as (Htotal & _ & _ & Hfails).
  split.
  - apply Htotal. repeat constructor; vm_compute; eexists; reflexivity.
  - destruct (Hfails (Some (js "key")) None unreachable oneSale
                (fun _ _ => Returned [pyrexMedium;
                                      noQuery "Pyrex 401 bowl" "kitchenware" "high"])
                1 1
                (mjoin (imap (analyzePhoto
                                (fun _ _ => Returned
                                   [pyrexMedium;
                                    noQuery "Pyrex 401 bowl" "kitchenware" "high"]))
                             (take 10 [onePhoto])))
                (notAString "toLowerCase")) as [_ Hpost].
    + vm_compute. reflexivity.
    + apply (Hpost (requestFor "4242")
               {| saleOk := true; saleStatus := 200; pictures := [onePhoto] |}).
      * reflexivity.
      * reflexivity.
      * reflexivity.
      * reflexivity.
      * discriminate.
      * reflexivity.
Defined.

(** ** Vision analysis orchestrator *)

Lemma descendingBy_ext {A : Type} (key key' : A -> Z) (l : list A) :
  Forall (fun a => key a = key' a) l -> descendingBy key l -> descendingBy key' l.
Proof.
  intros Heq Hd. apply descendingBy_fmap. apply descendingBy_fmap in Hd.
  replace (key' <$> l) with (key <$> l); [done|].
  apply Forall_fmap_ext_1. exact Heq.
Qed.

Section OrchestratorFacts.
Variable toLowerCase : jsstring -> jsstring.
Variables ANTHROPIC_API_KEY EBAY_APP_ID : option jsstring.
Variable network : nat -> Request -> HttpOutcome.
Variable saleDetails : jsstring -> outcome SaleDetails.
Variable vision : nat -> Photo -> outcome (list Item).

Lemma analyzeItems_sorted (nPhotos nPictures : nat) (allItems items : list Item)
  (r : Response) :
  analyzeItems toLowerCase EBAY_APP_ID network nPhotos nPictures allItems = Returned r ->
  reportItems r = Some items ->
  descendingBy sortValue items.
Proof.
  unfold analyzeItems.
  destruct (deduplicateItems _ _ _ allItems) as [deduplicated|e]; simpl; [|done].
  match goal with
  | |- context [match ?enriched with Some _ => _ | None => _ end] =>
      destruct enriched as [merged|]
  end.
  - destruct (foldl addToTotals _ _) as [[totalLow totalHigh] totalEbayMedian].
    intros [= <-]. simpl. intros [= <-].
    apply (sortBy_descending sortValue).
  - intros [= <-]. done.
Qed.

(** The items of every report are in descending order of the key of
    line 258.  When no attached median is 0, that is the order by
    best-known value: the attached marketplace median when comp data is
    present, else the first dollar amount of the value hint. *)
Lemma POST_report_sorted (request : outcome RequestBody) (items : list Item) :
  reportItems (POST toLowerCase ANTHROPIC_API_KEY EBAY_APP_ID network saleDetails
                    vision request) = Some items ->
  descendingBy sortValue items ∧
  (Forall (fun a => ∀ e, ebay a = Some e -> median e ≠ 0%Z) items ->
   descendingBy bestKnownValue items).
Proof.
  intros Hreport.
  assert (Hsorted : descendingBy sortValue items).
  { revert Hreport. unfold POST, handle.
    destruct request as [body|e]; simpl; [|done].
    destruct (truthy (saleId body)); simpl; [|done].
    destruct (truthy ANTHROPIC_API_KEY); simpl; [|done].
    destruct (saleDetails _) as [sale|e]; simpl; [|done].
    destruct (saleOk sale); simpl; [|done].
    destruct (decide (length (pictures sale) = 0)); simpl.
    { intros [= <-]. constructor. }
    destruct (analyzeItems _ _ _ _ _ _) as [r|e] eqn:Han; [|done].
    intros Hr. by eapply analyzeItems_sorted. }
  split; [done|].
  intros Hnonzero. apply (descendingBy_ext sortValue); [|done].
  eapply Forall_impl; [exact Hnonzero|]. simpl.
  intros a Ha. unfold sortValue, bestKnownValue.
  destruct (ebay a) as [e|]; [|done].
  rewrite decide_True; [done|]. by apply Ha.
Qed.
End OrchestratorFacts.

Example POST_report_sorted_tokens :
  ∃ items,
    reportItems (POST toLowerCaseASCII (Some (js "key")) (Some (js "APP")) tokenMarket
                      oneSale (fun _ _ => Returned [lamp; tokenMedium; tokenHigh])
                      (Returned (requestFor "4242"))) = Some items ∧
    sortValue <$> items = [50; 20; 0]%Z ∧
    descendingBy sortValue items.
Proof.
  eexists. split; [vm_compute; reflexivity|]. split; [vm_compute; reflexivity|].
  refine (proj1 (POST_report_sorted toLowerCaseASCII (Some (js "key")) (Some (js "APP"))
                   tokenMarket oneSale
                   (fun _ _ => Returned [lamp; tokenMedium; tokenHigh])
                   (Returned (requestFor "4242")) _ _)).
  vm_compute. reflexivity.
Defined.

(** C3.  The report is meant to be in descending order of best-known
    value, the attached median counting whenever comp data is present.
    The handler misses the case of a median of 0: of the three items
    below, the one with comp data of median 0 is ranked by its estimate
    of 50 dollars, above an item without comp data estimated at 20
    dollars, so the report is not in that order. *)
Theorem POST_zero_median_ranked_by_estimate :
  ∃ items,
    reportItems (POST toLowerCaseASCII (Some (js "key")) (Some (js "APP")) tokenMarket
                      oneSale (fun _ _ => Returned [lamp; tokenMedium; tokenHigh])
                      (Returned (requestFor "4242"))) = Some items ∧
    name <$> items = [Some (js "Token"); Some (js "Lamp"); Some (js "Token")] ∧
    (λ a, median <$> ebay a) <$> items = [Some 0%Z; None; Some 0%Z] ∧
    bestKnownValue <$> items = [0; 20; 0]%Z ∧
    ¬ descendingBy bestKnownValue items.
Proof.
  eexists. split; [vm_compute; reflexivity|].
  split; [vm_compute; reflexivity|].
  split; [vm_compute; reflexivity|].
  split; [vm_compute; reflexivity|].
  intros Hd. apply descendingBy_fmap in Hd.
  match type of Hd with
  | descendingBy id ?values =>
      assert (Hvalues : values = [0; 20; 0]%Z) by (vm_compute; reflexivity);
      rewrite Hvalues in Hd
  end.
  unfold descendingBy in Hd.
  apply StronglySorted_cons in Hd as [Hall _].
  apply Forall_cons in Hall as [Hle _]. simpl in Hle. lia.
Qed.

(** * Further properties of the code *)

(** ** Similarity scorer: range and zero score *)

Lemma size_list_to_set_disj (l : list (list N)) :
  size (list_to_set_disj l : gmultiset (list N)) = length l.
Proof.
  induction l as [|g l IH].
  - done.
  - rewrite list_to_set_disj_cons, gmultiset_size_disj_union,
      gmultiset_size_singleton, IH. done.
Qed.

Lemma bigramsOf_length (s : jsstring) : length (bigramsOf s) = length s - 1.
Proof. unfold bigramsOf. by rewrite length_fmap, length_seq. Qed.

Section SimilarityRange.
Variable toLowerCase : jsstring -> jsstring.

Lemma intersections_le_l (aLower bLower : jsstring) :
  (consumeBigrams bLower (countBigrams aLower)).2 <= length aLower - 1.
Proof.
  rewrite intersections_size, <- bigramsOf_length, <- size_list_to_set_disj.
  apply gmultiset_subseteq_size. intros g.
  rewrite multiplicity_intersection. lia.
Qed.

Lemma intersections_le_r (aLower bLower : jsstring) :
  (consumeBigrams bLower (countBigrams aLower)).2 <= length bLower - 1.
Proof. rewrite intersections_swap. apply intersections_le_l. Qed.

(** X1.  The score lies between 0 and 1 for all strings. *)
Theorem similarity_range (a b : jsstring) :
  (0 <= similarity toLowerCase a b <= 1)%Q.
Proof.
  unfold similarity.
  destruct (decide (toLowerCase a = toLowerCase b)); [done|].
  destruct (decide (length (toLowerCase a) < 2 ∨ length (toLowerCase b) < 2)); [done|].
  pose proof (intersections_le_l (toLowerCase a) (toLowerCase b)).
  pose proof (intersections_le_r (toLowerCase a) (toLowerCase b)).
  unfold Qle. simpl. rewrite Z2Pos.id by lia. lia.
Qed.

(** X2.  Two strings of at least two code units whose lower-cased forms
    differ score 0 exactly when they have no bigram in common. *)
Theorem similarity_zero_iff_no_common_bigram (a b : jsstring) :
  toLowerCase a ≠ toLowerCase b ->
  2 <= length (toLowerCase a) -> 2 <= length (toLowerCase b) ->
  (similarity toLowerCase a b == 0)%Q <->
  ∀ g, g ∈ bigramsOf (toLowerCase a) -> g ∉ bigramsOf (toLowerCase b).
Proof.
  intros Hne Ha Hb. unfold similarity.
  rewrite decide_False by done. rewrite decide_False by lia.
  rewrite intersections_size. unfold Qeq. simpl.
  rewrite Z.mul_1_r.
  set (A := list_to_set_disj (bigramsOf (toLowerCase a)) : gmultiset (list N)).
  set (B := list_to_set_disj (bigramsOf (toLowerCase b)) : gmultiset (list N)).
  assert (Hiff : size (A ∩ B) = 0 <->
                 ∀ g, g ∈ bigramsOf (toLowerCase a) -> g ∉ bigramsOf (toLowerCase b)).
  { rewrite gmultiset_size_empty_iff. split.
    - intros Hempty g Hga Hgb.
      assert (Hin : g ∈ A ∩ B).
      { apply gmultiset_elem_of_intersection.
        split; by apply elem_of_list_to_set_disj. }
      rewrite Hempty in Hin. by apply gmultiset_elem_of_empty in Hin.
    - intros Hdisj. apply gmultiset_eq. intros g.
      rewrite multiplicity_empty.
      destruct (decide (0 < multiplicity g (A ∩ B))) as [Hpos|]; [|lia].
      apply elem_of_multiplicity, gmultiset_elem_of_intersection in Hpos as [HA HB].
      apply elem_of_list_to_set_disj in HA, HB. by destruct (Hdisj g). }
  rewrite <- Hiff. lia.
Qed.
End SimilarityRange.

Lemma similarity_zero_iff_no_common_bigram_witness :
  (similarity toLowerCaseASCII (js "Lamp") (js "Desk") == 0)%Q <->
  ∀ g, g ∈ bigramsOf (toLowerCaseASCII (js "Lamp")) ->
       g ∉ bigramsOf (toLowerCaseASCII (js "Desk")).
Proof.
  apply (similarity_zero_iff_no_common_bigram toLowerCaseASCII (js "Lamp") (js "Desk")).
  - vm_compute. discriminate.
  - vm_compute. lia.
  - vm_compute. lia.
Defined.

(** ** Item deduplicator: what survives *)

Lemma grownFrom_refl (x : Item) : grownFrom x x.
Proof. split; [done|auto]. Qed.

Lemma grownFrom_trans (x y z : Item) : grownFrom x y -> grownFrom y z -> grownFrom x z.
Proof. intros [H1 F1] [H2 F2]. split; [congruence|auto]. Qed.

Lemma grownFrom_keys (x s : Item) : grownFrom x s -> keysOf s = keysOf x.
Proof.
  intros [H _]. unfold keysOf.
  apply (f_equal name) in H as Hn. apply (f_equal category) in H as Hc.
  apply (f_equal search_query) in H as Hq. apply (f_equal confidence) in H as Hf.
  simpl in *. congruence.
Qed.

Lemma grownFrom_merge (existing item : Item) :
  grownFrom existing (set_notable_features (mergeFeatures existing item) existing).
Proof.
  split; [done|]. intros f Hf. unfold featuresOf at 1. simpl.
  apply mergeFeatures_elem_of. by left.
Qed.

Section DeduplicateSurvivors.
Variable toLowerCase : jsstring -> jsstring.
Variables nameThreshold queryThreshold : Q.

Abbreviation findDup' := (findDuplicate toLowerCase nameThreshold queryThreshold).
Abbreviation isDup' := (isDuplicateOf toLowerCase nameThreshold queryThreshold).
Abbreviation loop' := (dedupLoop toLowerCase nameThreshold queryThreshold).
Abbreviation dedup' := (deduplicateItems toLowerCase nameThreshold queryThreshold).

(** [x] is represented in [kept]: by itself, possibly with more
    features, or by an item it duplicates; and its features are there. *)
Let covered (kept : list Item) (x : Item) : Prop :=
  ∃ s, s ∈ kept ∧
       (grownFrom x s ∨ isDup' x s = Returned true) ∧
       ∀ f, f ∈ featuresOf x -> f ∈ featuresOf s.

Lemma covered_grown (kept kept' : list Item) (x : Item) :
  (∀ k, k ∈ kept -> ∃ k', k' ∈ kept' ∧ grownFrom k k') ->
  covered kept x -> covered kept' x.
Proof.
  intros Hgrow (s & Hs & Hrel & Hfeat).
  destruct (Hgrow s Hs) as (s' & Hs' & Hg).
  exists s'. split; [done|]. split.
  - destruct Hrel as [Hx|Hdup].
    + left. by eapply grownFrom_trans.
    + right. rewrite <- Hdup. apply isDuplicateOf_keys; [done|].
      by apply grownFrom_keys.
  - intros f Hf. apply Hg. by apply Hfeat.
Qed.

(** A merge: the kept items grow pointwise, and the merged item is
    covered. *)
Lemma findDuplicate_Some_grown (item : Item) (kept kept' : list Item) :
  findDup' item kept = Returned (Some kept') ->
  Forall2 grownFrom kept kept' ∧ covered kept' item.
Proof.
  revert kept'. induction kept as [|existing rest IH]; intros kept'; [done|].
  rewrite findDuplicate_cons.
  destruct (isDup' item existing) as [[|]|e] eqn:Hdup; simpl; [| |done].
  - intros [= <-]. split.
    + constructor; [apply grownFrom_merge|]. apply Forall_Forall2_diag.
      apply Forall_forall. intros; apply grownFrom_refl.
    + exists (set_notable_features (mergeFeatures existing item) existing).
      split; [by left|]. split.
      * right. rewrite <- Hdup. by apply isDuplicateOf_keys.
      * intros f Hf. unfold featuresOf at 1. simpl.
        apply mergeFeatures_elem_of. by right.
  - destruct (findDup' item rest) as [[k|]|e] eqn:Hrest; simpl; [|done..].
    intros [= <-]. destruct (IH k eq_refl) as [Hall (s & Hs & Hrel)].
    split.
    + constructor; [apply grownFrom_refl|done].
    + exists s. split; [by right|done].
Qed.

Lemma Forall2_grownFrom_forward (kept kept' : list Item) :
  Forall2 grownFrom kept kept' ->
  ∀ k, k ∈ kept -> ∃ k', k' ∈ kept' ∧ grownFrom k k'.
Proof.
  intros H k Hk. apply list_elem_of_lookup_1 in Hk as [i Hi].
  destruct (Forall2_lookup_l _ _ _ _ _ H Hi) as (k' & Hk' & Hg).
  exists k'. split; [by eapply list_elem_of_lookup_2|done].
Qed.

Lemma Forall2_grownFrom_backward (kept kept' : list Item) :
  Forall2 grownFrom kept kept' ->
  ∀ k', k' ∈ kept' -> ∃ k, k ∈ kept ∧ grownFrom k k'.
Proof.
  intros H k' Hk'. apply list_elem_of_lookup_1 in Hk' as [i Hi].
  destruct (Forall2_lookup_r _ _ _ _ _ H Hi) as (k & Hk & Hg).
  exists k. split; [by eapply list_elem_of_lookup_2|done].
Qed.

(** The outer loop: kept items only grow, every item of the sorted list
    ends up covered, every survivor grew from a kept item or from an
    item of the sorted list, and no item is added twice. *)
Lemma dedupLoop_survivors (sorted kept out : list Item) :
  loop' sorted kept = Returned out ->
  (∀ k, k ∈ kept -> ∃ s, s ∈ out ∧ grownFrom k s) ∧
  (∀ x, x ∈ sorted -> covered out x) ∧
  (∀ s, s ∈ out -> ∃ x, x ∈ kept ++ sorted ∧ grownFrom x s) ∧
  length out <= length kept + length sorted.
Proof.
  revert kept. induction sorted as [|item sorted IH]; intros kept; simpl.
  - intros [= <-]. split_and!.
    + intros k Hk. exists k. split; [done|apply grownFrom_refl].
    + intros x Hx. by apply elem_of_nil in Hx.
    + intros s Hs. exists s. rewrite app_nil_r. split; [done|apply grownFrom_refl].
    + lia.
  - destruct (findDup' item kept) as [[kept'|]|e] eqn:Hfind; simpl; [| |done].
    + intros Hloop. destruct (IH kept' Hloop) as (Hkept & Hsorted & Hback & Hlen).
      apply findDuplicate_Some_grown in Hfind as [Hall Hcov].
      pose proof (Forall2_length _ _ _ Hall) as Hl.
      split_and!.
      * intros k Hk.
        destruct (Forall2_grownFrom_forward _ _ Hall k Hk) as (k' & Hk' & Hg).
        destruct (Hkept k' Hk') as (s & Hs & Hg').
        exists s. split; [done|]. by eapply grownFrom_trans.
      * intros x Hx. apply elem_of_cons in Hx as [->|Hx]; [|by apply Hsorted].
        by apply (covered_grown kept').
      * intros s Hs. destruct (Hback s Hs) as (x & Hx & Hg).
        apply elem_of_app in Hx as [Hx|Hx].
        -- destruct (Forall2_grownFrom_backward _ _ Hall x Hx) as (k & Hk & Hg').
           exists k. split; [apply elem_of_app; by left|].
           by eapply grownFrom_trans.
        -- exists x. split; [|done]. apply elem_of_app. right. by right.
      * lia.
    + intros Hloop. destruct (IH _ Hloop) as (Hkept & Hsorted & Hback & Hlen).
      split_and!.
      * intros k Hk. apply Hkept. apply elem_of_app. by left.
      * intros x Hx. apply elem_of_cons in Hx as [->|Hx]; [|by apply Hsorted].
        destruct (Hkept item) as (s & Hs & Hg).
        { apply elem_of_app. right. by left. }
        exists s. split; [done|]. split; [by left|]. apply Hg.
      * intros s Hs. destruct (Hback s Hs) as (x & Hx & Hg).
        exists x. split; [|done]. rewrite <- app_assoc in Hx. exact Hx.
      * rewrite length_app in Hlen. simpl in Hlen. lia.
Qed.

(** X3.  When no confidence is the name of an inherited property, the
    survivors are in descending order of confidence rank. *)
Theorem deduplicateItems_sorted_by_confidence (items out : list Item) :
  Forall plainConfidence items ->
  dedup' items = Returned out -> descendingBy rankOf out.
Proof. apply deduplicateItems_descending. Qed.

(** X4.  Nothing is invented: there are at most as many survivors as
    input items, and every survivor is an input item, unchanged but for
    notable features that were added to it. *)
Theorem deduplicateItems_survivors_from_input (items out : list Item) :
  dedup' items = Returned out ->
  length out <= length items ∧
  ∀ s, s ∈ out -> ∃ x, x ∈ items ∧ grownFrom x s.
Proof.
  intros H. apply dedupLoop_survivors in H as (_ & _ & Hback & Hlen).
  split.
  - simpl in Hlen. by rewrite (sortBy_length byConfidence) in Hlen.
  - intros s Hs. destruct (Hback s Hs) as (x & Hx & Hg).
    exists x. split; [|done]. simpl in Hx.
    exact (proj1 (sortBy_elem_of byConfidence x items) Hx).
Qed.

(** X5.  Nothing is lost: every input item is represented by a survivor
    that is the item itself or an item it duplicates, and that carries
    all its notable features. *)
Theorem deduplicateItems_covers_input (items out : list Item) (x : Item) :
  dedup' items = Returned out ->
  x ∈ items ->
  ∃ s, s ∈ out ∧
       (grownFrom x s ∨ isDup' x s = Returned true) ∧
       ∀ f, f ∈ featuresOf x -> f ∈ featuresOf s.
Proof.
  intros H Hx. apply dedupLoop_survivors in H as (_ & Hcov & _).
  apply Hcov. exact (proj2 (sortBy_elem_of byConfidence x items) Hx).
Qed.

(** X6.  Items of pairwise different categories are never merged, and
    never compared: whatever their names and search phrases, present or
    not, the result is the sorted input, which is the input in stable
    descending order of confidence rank when no confidence is the name
    of an inherited property. *)
Theorem deduplicateItems_distinct_categories (items : list Item) :
  NoDup (category <$> items) ->
  Forall plainConfidence items ->
  dedup' items = Returned (sortBy byConfidence items) ∧
  sortBy byConfidence items = sortBy (fun a b => (rankOf b - rankOf a)%Z) items ∧
  descendingBy rankOf (sortBy byConfidence items).
Proof.
  intros Hnd Hplain.
  split; [|split; [by apply sortBy_byConfidence|
                   rewrite (sortBy_byConfidence items Hplain);
                   apply (sortBy_descending rankOf)]].
  unfold deduplicateItems.
  apply (dedupLoop_fixed _ _ _ _ []). simpl.
  assert (Hnd' : NoDup (category <$> sortBy byConfidence items)).
  { by rewrite sortBy_Permutation. }
  intros i j a b Hij Ha Hb. unfold isDuplicateOf.
  rewrite decide_True; [done|]. intros Heq.
  assert (i = j); [|lia].
  eapply (NoDup_lookup _ _ _ _ Hnd').
  - by rewrite list_lookup_fmap, Ha.
  - rewrite list_lookup_fmap, Hb. simpl. by rewrite Heq.
Qed.
End DeduplicateSurvivors.

(** ** Marketplace client: batches, requests and results *)

Section MarketplaceMore.
Variable EBAY_APP_ID : option jsstring.
Variable network : nat -> Request -> HttpOutcome.

Lemma lookupItem_returns (item : Item) (log : list Event) :
  ∃ l, (lookupItem EBAY_APP_ID network item log).1
       = Returned {| itemName := name item; ebayLookup := l |}.
Proof.
  unfold lookupItem. destruct (truthy (search_query item)); simpl; [|by eexists].
  unfold mbind, Net_bind.
  destruct (findSoldListings_returns EBAY_APP_ID network (default [] (search_query item))
              {| maxResults := None; categoryId := None;
                 minPrice := (priceRange item).1; maxPrice := (priceRange item).2 |} log)
    as [v Hv].
  destruct (findSoldListings _ _ _ _ log) as [settled log']. simpl in Hv. subst settled.
  by eexists.
Qed.

Lemma allSettled_names (items : list Item) (log : list Event) :
  (fun r => itemName (collect r)) <$> (allSettled EBAY_APP_ID network items log).1
  = name <$> items.
Proof.
  revert log. induction items as [|item items IH]; intros log; [done|].
  rewrite allSettled_cons. csimpl. rewrite IH.
  destruct (lookupItem_returns item log) as [l ->]. done.
Qed.

(** X7.  With a positive batch size the batch lookup returns exactly one
    result per item, in item order, each under the name of its item. *)
Theorem batchPriceLookup_one_result_per_item (items : list Item) (concurrency : nat)
  (log : list Event) :
  0 < concurrency ->
  ∃ results,
    (batchPriceLookup EBAY_APP_ID network items concurrency log).1 = Some results ∧
    length results = length items ∧
    itemName <$> results = name <$> items.
Proof.
  intros Hc. rewrite batchPriceLookup_run by done. simpl.
  eexists. split; [done|].
  pose proof (allSettled_names items log) as Hn.
  rewrite <- list_fmap_compose. split; [|exact Hn].
  apply (f_equal length) in Hn. rewrite !length_fmap in Hn.
  by rewrite length_fmap.
Qed.

(** X8.  The batch size changes neither the results nor the trace: any
    two positive batch sizes give the same outcome. *)
Theorem batchPriceLookup_any_batch_size (items : list Item) (c1 c2 : nat)
  (log : list Event) :
  0 < c1 -> 0 < c2 ->
  batchPriceLookup EBAY_APP_ID network items c1 log
  = batchPriceLookup EBAY_APP_ID network items c2 log.
Proof. intros H1 H2. by rewrite !batchPriceLookup_run. Qed.

(** X9.  With a batch size of 0 the loop never ends on a non-empty list:
    whatever the fuel, it runs out, and nothing is looked up. *)
Theorem batchLoop_zero_batch_size (items : list Item) (fuel : nat)
  (results : list PriceLookup) (log : list Event) :
  items ≠ [] ->
  batchLoop EBAY_APP_ID network fuel items 0 0 results log = (None, log).
Proof.
  intros Hne. assert (Hlen : 0 < length items) by (destruct items; [done|simpl; lia]).
  revert results. induction fuel as [|fuel IH]; intros results; [done|].
  simpl. rewrite decide_True by done.
  unfold mbind, Net_bind. simpl. rewrite app_nil_r. apply IH.
Qed.

Lemma requestsOf_app (l1 l2 : list Event) :
  requestsOf (l1 ++ l2) = requestsOf l1 ++ requestsOf l2.
Proof. unfold requestsOf. apply omap_app. Qed.

Lemma requestsOf_events (items : list Item) :
  requestsOf (flat_map (eventsOf EBAY_APP_ID) items) =
  if truthy EBAY_APP_ID
  then requestFor_item (default [] EBAY_APP_ID)
         <$> filter (fun item => truthy (search_query item) = true) items
  else [].
Proof.
  induction items as [|item items IH]; simpl.
  - by destruct (truthy EBAY_APP_ID).
  - rewrite requestsOf_app, IH. rewrite filter_cons. unfold eventsOf.
    destruct (truthy (search_query item)) eqn:Hq.
    + rewrite decide_True by done.
      destruct (truthy EBAY_APP_ID); done.
    + rewrite decide_False by done. simpl.
      destruct (truthy EBAY_APP_ID); done.
Qed.

Lemma lookupItem_unavailable (item : Item) (log : list Event) :
  truthy EBAY_APP_ID = false ->
  ∃ reason, (lookupItem EBAY_APP_ID network item log).1
            = Returned {| itemName := name item; ebayLookup := Unavailable reason |}.
Proof.
  intros Hno. unfold lookupItem.
  destruct (truthy (search_query item)); simpl; [|by eexists].
  unfold mbind, Net_bind. rewrite findSoldListings_run, Hno. by eexists.
Qed.

Lemma allSettled_unavailable (items : list Item) (log : list Event) :
  truthy EBAY_APP_ID = false ->
  Forall (fun r => ∃ reason, ebayLookup r = Unavailable reason)
         (collect <$> (allSettled EBAY_APP_ID network items log).1).
Proof.
  intros Hno. revert log. induction items as [|item items IH]; intros log.
  - constructor.
  - rewrite allSettled_cons. csimpl. constructor; [|apply IH].
    destruct (lookupItem_unavailable item log Hno) as [reason ->]. by eexists.
Qed.

(** X10.  Without the marketplace credential the batch lookup sends no
    request, and every result is [{available: false, reason}]. *)
Theorem batchPriceLookup_without_credential (items : list Item) (concurrency : nat) :
  0 < concurrency ->
  truthy EBAY_APP_ID = false ->
  ∃ results,
    (batchPriceLookup EBAY_APP_ID network items concurrency []).1 = Some results ∧
    requestsOf (batchPriceLookup EBAY_APP_ID network items concurrency []).2 = [] ∧
    Forall (fun r => ∃ reason, ebayLookup r = Unavailable reason) results.
Proof.
  intros Hc Hno. rewrite batchPriceLookup_run by done. simpl.
  eexists. split; [done|]. split.
  - by rewrite requestsOf_events, Hno.
  - by apply allSettled_unavailable.
Qed.

(** X11.  With the credential the batch lookup sends exactly one request
    per item that has a search phrase, in item order: the request built
    from that item's phrase and price range. *)
Theorem batchPriceLookup_requests (items : list Item) (concurrency : nat) :
  0 < concurrency ->
  truthy EBAY_APP_ID = true ->
  requestsOf (batchPriceLookup EBAY_APP_ID network items concurrency []).2
  = requestFor_item (default [] EBAY_APP_ID)
      <$> filter (fun item => truthy (search_query item) = true) items.
Proof.
  intros Hc Hyes. rewrite batchPriceLookup_run by done. simpl.
  by rewrite requestsOf_events, Hyes.
Qed.
End MarketplaceMore.

(** X12.  Every request asks the operation [findCompletedItems] for sold
    items only, and carries the credential, the search phrase as
    keywords and the page size, 8 unless given. *)
Theorem buildRequest_parameters (appId searchQuery : jsstring) (options : Options) :
  let req := buildRequest appId searchQuery options in
  endpoint req = FINDING_API_URL ∧
  paramOf (js "OPERATION-NAME") req = Some (js "findCompletedItems") ∧
  paramOf (js "SECURITY-APPNAME") req = Some appId ∧
  paramOf (js "keywords") req = Some searchQuery ∧
  paramOf (js "paginationInput.entriesPerPage") req
    = Some (js (pretty (default 8 (maxResults options)))) ∧
  paramOf (js "itemFilter(0).name") req = Some (js "SoldItemsOnly") ∧
  paramOf (js "itemFilter(0).value") req = Some (js "true").
Proof.
  destruct options as [mr cat mn mx]. unfold buildRequest, buildItemFilters. simpl.
  destruct cat as [[|c cat]|]; simpl;
    destruct mn as [mn|]; try destruct (decide (mn ≠ 0%Z));
    destruct mx as [mx|]; try destruct (decide (mx ≠ 0%Z));
    split_and!; reflexivity.
Qed.

(** ** Dollar amounts: what the pattern captures *)

Lemma parseInt_snoc (l : jsstring) (d : N) :
  parseInt (l ++ [d]) = (parseInt l * 10 + (Z.of_N d - 48))%Z.
Proof. unfold parseInt. by rewrite foldl_app. Qed.

Lemma parseInt_nonneg (l : jsstring) :
  Forall (fun c => isDigit c = true) l -> (0 <= parseInt l)%Z.
Proof.
  induction l as [|d l IH] using rev_ind; [done|].
  rewrite Forall_app, Forall_singleton. intros [Hl Hd].
  rewrite parseInt_snoc. specialize (IH Hl).
  unfold isDigit in Hd. apply andb_true_iff in Hd as [Hd _].
  apply N.leb_le in Hd. lia.
Qed.

(** The digits accumulated by the scanner and every amount it emits are
    non-empty runs of digits. *)
Lemma dollarAmounts_digitRuns (st : scanState) (s : jsstring) :
  (∀ ds, st = InDigits ds -> digitRun ds) ->
  Forall digitRun (dollarAmounts st s).
Proof.
  revert st. induction s as [|c s IH]; intros st Hst; simpl.
  - destruct st as [| |ds]; [constructor..|]. constructor; [by apply Hst|constructor].
  - destruct st as [| |ds].
    + apply IH. by destruct (isDollar c).
    + destruct (isDigit c) eqn:Hc.
      * apply IH. intros ds [= <-]. split; [done|]. by constructor.
      * apply IH. by destruct (isDollar c).
    + destruct (isDigit c) eqn:Hc.
      * apply IH. intros ds' [= <-]. destruct (Hst ds eq_refl) as [Hne Hall].
        split; [by destruct ds|]. apply Forall_app. split; [done|]. by constructor.
      * constructor; [by apply Hst|]. apply IH. by destruct (isDollar c).
Qed.

Lemma dollarAmounts_skip (pre s : jsstring) :
  Forall (fun c => isDollar c = false) pre ->
  dollarAmounts Idle (pre ++ s) = dollarAmounts Idle s.
Proof. induction 1 as [|c pre Hc _ IH]; simpl; [done|]. by rewrite Hc. Qed.

Lemma dollarAmounts_run (ds l rest : jsstring) :
  Forall (fun c => isDigit c = true) l ->
  dollarAmounts (InDigits ds) (l ++ rest) = dollarAmounts (InDigits (ds ++ l)) rest.
Proof.
  intros Hl. revert ds. induction Hl as [|c l Hc _ IH]; intros ds; simpl.
  - by rewrite app_nil_r.
  - rewrite Hc, IH, <- app_assoc. done.
Qed.

(** After a dollar sign, a run of digits that ends the string or is
    followed by another character is the first amount found. *)
Lemma dollarAmounts_first (l rest : jsstring) :
  digitRun l ->
  (∀ c rest', rest = c :: rest' -> isDigit c = false) ->
  ∃ more, dollarAmounts AfterDollar (l ++ rest) = l :: more.
Proof.
  intros [Hne Hl] Hrest. destruct l as [|d l]; [done|].
  apply Forall_cons in Hl as [Hd Hl]. simpl. rewrite Hd.
  rewrite dollarAmounts_run by done. simpl.
  destruct rest as [|c rest']; simpl; [by eexists|].
  rewrite (Hrest c rest' eq_refl). by eexists.
Qed.

(** The decimal text of a number: digits only, and [parseInt] reads the
    number back. *)
Lemma js_String (c : ascii) (s : string) : js (String c s) = N_of_ascii c :: js s.
Proof. done. Qed.

Lemma pretty_N_char_digit (x : N) :
  (x < 10)%N ->
  isDigit (N_of_ascii (pretty_N_char x)) = true ∧
  (Z.of_N (N_of_ascii (pretty_N_char x)) - 48)%Z = Z.of_N x.
Proof.
  intros Hx.
  assert (x = 0 ∨ x = 1 ∨ x = 2 ∨ x = 3 ∨ x = 4 ∨ x = 5 ∨ x = 6 ∨ x = 7 ∨ x = 8 ∨ x = 9)%N
    as Hcases by lia.
  repeat (destruct Hcases as [->|Hcases]; [by vm_compute|]). subst. by vm_compute.
Qed.

Lemma pretty_N_go_digits (x : N) (s : string) :
  ∃ l, js (pretty_N_go x s) = l ++ js s ∧
       Forall (fun c => isDigit c = true) l ∧
       parseInt l = Z.of_N x ∧
       ((0 < x)%N -> l ≠ []).
Proof.
  revert s. induction (N.lt_wf_0 x) as [x _ IH]; intros s.
  destruct (decide (0 < x)%N) as [Hpos|Hzero].
  - rewrite pretty_N_go_step by done.
    destruct (IH (x `div` 10)%N (N.div_lt x 10 Hpos eq_refl)
                (String (pretty_N_char (x `mod` 10)) s)) as (l & Hl & Hd & Hv & _).
    destruct (pretty_N_char_digit (x `mod` 10)%N) as [Hc Hcv].
    { by apply N.mod_lt. }
    exists (l ++ [N_of_ascii (pretty_N_char (x `mod` 10))]).
    split_and!.
    + rewrite Hl, js_String, <- app_assoc. done.
    + apply Forall_app. split; [done|]. by constructor.
    + rewrite parseInt_snoc, Hv, Hcv.
      rewrite (N.div_mod x 10) at 3 by done. lia.
    + intros _. by destruct l.
  - assert (x = 0%N) as -> by lia. exists []. rewrite pretty_N_go_0.
    split_and!; [done|constructor|done|lia].
Qed.

Lemma pretty_N_digits (n : N) :
  digitRun (js (pretty n)) ∧ parseInt (js (pretty n)) = Z.of_N n.
Proof.
  unfold pretty, pretty_N. destruct (decide (n = 0%N)) as [->|Hne].
  - split; [split; [done|]|done]. by repeat constructor.
  - destruct (pretty_N_go_digits n "") as (l & Hl & Hd & Hv & Hnonempty).
    change (js "") with (@nil N) in Hl. rewrite app_nil_r in Hl. rewrite Hl.
    split; [split; [apply Hnonempty; lia|done]|done].
Qed.

(** X13.  Only non-empty runs of decimal digits are read as dollar
    amounts, so no estimate is negative. *)
Theorem parseEstimate_nonneg (hint : option jsstring) :
  Forall digitRun (dollarAmounts Idle (default [] hint)) ∧
  (0 <= parseEstimate hint)%Z.
Proof.
  assert (Hruns : ∀ s, Forall digitRun (dollarAmounts Idle s)).
  { intros s. by apply dollarAmounts_digitRuns. }
  split; [apply Hruns|].
  unfold parseEstimate. destruct hint as [[|c h]|]; [done| |done].
  specialize (Hruns (c :: h)).
  destruct (dollarAmounts Idle (c :: h)) as [|m ms]; [done|].
  apply Forall_cons in Hruns as [[_ Hm] _]. by apply parseInt_nonneg.
Qed.

(** X14.  An estimate written as a dollar sign and the decimal text of a
    number below 2^53 is read back as that number, whatever precedes
    the dollar sign (if it holds no dollar sign) and whatever follows
    the digits (if it does not start with a digit). *)
Theorem parseEstimate_reads_amount (before after : jsstring) (n : N) :
  (n < 2 ^ 53)%N ->
  Forall (fun c => isDollar c = false) before ->
  (∀ c rest, after = c :: rest -> isDigit c = false) ->
  parseEstimate (Some (before ++ js "$" ++ js (pretty n) ++ after)) = Z.of_N n.
Proof.
  intros _ Hbefore Hafter.
  destruct (pretty_N_digits n) as [Hrun Hvalue].
  destruct (dollarAmounts_first (js (pretty n)) after Hrun Hafter) as [more Hfirst].
  assert (Hamounts : dollarAmounts Idle (before ++ js "$" ++ js (pretty n) ++ after)
                     = js (pretty n) :: more).
  { rewrite dollarAmounts_skip by done. exact Hfirst. }
  unfold parseEstimate.
  destruct (before ++ js "$" ++ js (pretty n) ++ after) as [|c h] eqn:Hs.
  - by destruct before.
  - by rewrite Hamounts.
Qed.

(** ** Price statistics *)

Lemma foldl_Qmin_le (acc : Q) (l : list Q) :
  (foldl Qmin acc l <= acc)%Q ∧ Forall (fun x => (foldl Qmin acc l <= x)%Q) l.
Proof.
  revert acc. induction l as [|x l IH]; intros acc; simpl.
  - split; [apply Qle_refl|constructor].
  - destruct (IH (Qmin acc x)) as [H1 H2]. split.
    + eapply Qle_trans; [exact H1|apply Q.le_min_l].
    + constructor; [|exact H2]. eapply Qle_trans; [exact H1|apply Q.le_min_r].
Qed.

Lemma foldl_Qmax_ge (acc : Q) (l : list Q) :
  (acc <= foldl Qmax acc l)%Q ∧ Forall (fun x => (x <= foldl Qmax acc l)%Q) l.
Proof.
  revert acc. induction l as [|x l IH]; intros acc; simpl.
  - split; [apply Qle_refl|constructor].
  - destruct (IH (Qmax acc x)) as [H1 H2]. split.
    + eapply Qle_trans; [apply Q.le_max_l|exact H1].
    + constructor; [|exact H2]. eapply Qle_trans; [apply Q.le_max_r|exact H1].
Qed.

Lemma foldl_Qmin_pos (acc : Q) (l : list Q) :
  (0 < acc)%Q -> Forall (fun x => (0 < x)%Q) l -> (0 < foldl Qmin acc l)%Q.
Proof.
  intros Hacc Hl. revert acc Hacc. induction Hl as [|x l Hx _ IH]; intros acc Hacc; simpl.
  - done.
  - apply IH. by apply Q.min_glb_lt.
Qed.

Lemma mathRound_le (x y : Q) : (x <= y)%Q -> (mathRound x <= mathRound y)%Z.
Proof. intros H. apply Qfloor_resp_le. lra. Qed.

Lemma length_omap_le {A B : Type} (f : A -> option B) (l : list A) :
  length (omap f l) <= length l.
Proof.
  induction l as [|x l IH]; csimpl; [done|]. destruct (f x); simpl; lia.
Qed.

Lemma medianOf_bounds (lo hi : Q) (arr : list Q) :
  arr ≠ [] ->
  Forall (fun x => (lo <= x <= hi)%Q) arr ->
  (mathRound lo <= medianOf arr <= mathRound hi)%Z.
Proof.
  intros Hne Hall. unfold medianOf.
  set (sorted := sortBy (fun a b => signOf (a - b)%Q) arr).
  assert (Hperm : sorted ≡ₚ arr) by apply sortBy_Permutation.
  assert (Hsorted : Forall (fun x => (lo <= x <= hi)%Q) sorted) by (by rewrite Hperm).
  assert (Hlen : 0 < length sorted).
  { rewrite Hperm. destruct arr; [done|simpl; lia]. }
  assert (Hget : ∀ i, i < length sorted ->
                      (lo <= default 0%Q (sorted !! i) <= hi)%Q).
  { intros i Hi. destruct (lookup_lt_is_Some_2 sorted i Hi) as [x Hx].
    rewrite Hx. simpl. rewrite Forall_forall in Hsorted.
    apply Hsorted. by eapply list_elem_of_lookup_2. }
  pose proof (Nat.div_lt (length sorted) 2 Hlen ltac:(lia)) as Hmid.
  destruct (decide (length sorted `mod` 2 ≠ 0)).
  - destruct (Hget _ Hmid) as [H1 H2]. split; by apply mathRound_le.
  - destruct (Hget _ Hmid) as [H1 H2].
    destruct (Hget (length sorted `div` 2 - 1)) as [H3 H4]; [lia|].
    split; apply mathRound_le.
    + apply Qle_shift_div_l; [reflexivity|]. lra.
    + apply Qle_shift_div_r; [reflexivity|]. lra.
Qed.

(** X15.  The statistics of a search: at most one counted price per sale
    found and at most five recent sales; without a positive price
    everything is 0; otherwise the lowest price is positive and not
    above the highest, and the median lies between the rounded lowest
    and highest price. *)
Theorem priceStats_bounds (data : SearchResponse) :
  let st := priceStats data in
  count st <= length (soldItems data) ∧
  length (recentSales st) <= 5 ∧
  (count st = 0 ->
   median st = 0%Z ∧ mean st = 0%Z ∧ low st = 0%Q ∧ high st = 0%Q ∧ recentSales st = []) ∧
  (0 < count st ->
   (0 < low st)%Q ∧ (low st <= high st)%Q ∧
   (mathRound (low st) <= median st <= mathRound (high st))%Z).
Proof.
  unfold priceStats.
  set (priced := fun i : SoldItem =>
                   match soldPrice i with
                   | Some p => if Qlt_le_dec 0 p then Some p else None
                   | None => None
                   end).
  assert (Hpos : Forall (fun x => (0 < x)%Q) (omap priced (soldItems data))).
  { apply Forall_forall. intros x Hx. apply list_elem_of_omap in Hx as (i & _ & Hi).
    unfold priced in Hi. destruct (soldPrice i) as [p|]; [|done].
    destruct (Qlt_le_dec 0 p); [|done]. by injection Hi as <-. }
  pose proof (length_omap_le priced (soldItems data)) as Hcount.
  destruct (omap priced (soldItems data)) as [|p ps] eqn:Hprices; simpl.
  - split_and!; [lia|lia|done|lia].
  - split_and!; [exact Hcount|rewrite length_take; lia|done|]. intros _.
    apply Forall_cons in Hpos as [Hp Hps].
    destruct (foldl_Qmin_le p ps) as [Hmin Hmins].
    destruct (foldl_Qmax_ge p ps) as [Hmax Hmaxs].
    set (lo := foldl Qmin p ps) in *. set (hi := foldl Qmax p ps) in *.
    assert (Hall : Forall (fun x => (lo <= x <= hi)%Q) (p :: ps)).
    { constructor; [done|]. apply Forall_forall. intros x Hx.
      rewrite Forall_forall in Hmins, Hmaxs. split; auto. }
    split; [by apply foldl_Qmin_pos|].
    split; [by eapply Qle_trans|].
    by apply medianOf_bounds.
Qed.

(** ** Price range and price filters *)

Lemma pretty_Z_digits (p : Z) : (0 <= p)%Z -> parseInt (js (pretty p)) = p.
Proof.
  intros Hp. destruct p as [|x|x]; [done| |lia].
  change (pretty (Z.pos x)) with (pretty (N.pos x)).
  by destruct (pretty_N_digits (N.pos x)) as [_ ->].
Qed.

(** X16.  For a hint with dollar amounts L and H below 2^50 the price
    range is, in whole numbers, from the larger of 1 and (3 L + 5) div 10
    to 3 H.  The lower bound is at least 1, and the range is not
    inverted when L <= H and H is at least 1. *)
Theorem priceRange_bounds (item : Item) (L : jsstring) (ms : list jsstring) :
  truthy (estimated_value_hint item) = true ->
  dollarAmounts Idle (default [] (estimated_value_hint item)) = L :: ms ->
  let low := parseInt L in
  let high := parseInt (match ms with m1 :: _ => m1 | [] => L end) in
  (low < 2 ^ 50)%Z -> (high < 2 ^ 50)%Z ->
  ∃ lowest highest,
    priceRange item = (Some lowest, Some highest) ∧
    lowest = Z.max 1 ((3 * low + 5) / 10) ∧
    highest = (3 * high)%Z ∧
    (1 <= lowest)%Z ∧ (0 <= highest)%Z ∧
    ((low <= high)%Z -> (1 <= high)%Z -> (lowest <= highest)%Z).
Proof.
  intros Hhint Hamounts low high _ _.
  assert (Hruns : Forall digitRun (L :: ms)).
  { rewrite <- Hamounts. by apply dollarAmounts_digitRuns. }
  assert (Hlow : (0 <= low)%Z).
  { apply Forall_cons in Hruns as [[_ HL] _]. by apply parseInt_nonneg. }
  assert (Hhigh : (0 <= high)%Z).
  { subst high. destruct ms as [|m1 ms'].
    - exact Hlow.
    - apply Forall_cons in Hruns as [_ Hms].
      apply Forall_cons in Hms as [[_ Hm1] _]. by apply parseInt_nonneg. }
  exists (Z.max 1 ((3 * low + 5) / 10)), (3 * high)%Z.
  split_and!; [|done|done|lia|lia|].
  - unfold priceRange. rewrite Hhint, Hamounts.
    by rewrite mathRound_times_03, mathRound_times_3.
  - intros Hle Hone.
    assert ((3 * low + 5) / 10 <= 3 * high)%Z; [|lia].
    apply Z.div_le_upper_bound; lia.
Qed.

(** X17.  A price bound other than 0 and of size below 2^53 given in
    the options reaches the request as a [MinPrice] or [MaxPrice] filter
    in US dollars whose value is the decimal text of the bound, which
    reads back as the bound; a bound of 0 adds no filter, as if it were
    absent. *)
Theorem buildRequest_price_filters (appId searchQuery : jsstring) (options : Options) :
  let req := buildRequest appId searchQuery options in
  (∀ p, minPrice options = Some p -> p ≠ 0%Z -> (Z.abs p < 2 ^ 53)%Z ->
        paramOf (js "itemFilter(2).name") req = Some (js "MinPrice") ∧
        paramOf (js "itemFilter(2).value") req = Some (js (pretty p)) ∧
        paramOf (js "itemFilter(2).paramName") req = Some (js "Currency") ∧
        paramOf (js "itemFilter(2).paramValue") req = Some (js "USD") ∧
        ((0 <= p)%Z -> parseInt (js (pretty p)) = p)) ∧
  (∀ p, maxPrice options = Some p -> p ≠ 0%Z -> (Z.abs p < 2 ^ 53)%Z ->
        ∃ idx : nat,
          paramOf (js "itemFilter(" ++ js (pretty idx) ++ js ").name") req
            = Some (js "MaxPrice") ∧
          paramOf (js "itemFilter(" ++ js (pretty idx) ++ js ").value") req
            = Some (js (pretty p)) ∧
          paramOf (js "itemFilter(" ++ js (pretty idx) ++ js ").paramName") req
            = Some (js "Currency") ∧
          paramOf (js "itemFilter(" ++ js (pretty idx) ++ js ").paramValue") req
            = Some (js "USD")) ∧
  (minPrice options = Some 0%Z ->
   req = buildRequest appId searchQuery
           {| maxResults := maxResults options; categoryId := categoryId options;
              minPrice := None; maxPrice := maxPrice options |}) ∧
  (maxPrice options = Some 0%Z ->
   req = buildRequest appId searchQuery
           {| maxResults := maxResults options; categoryId := categoryId options;
              minPrice := minPrice options; maxPrice := None |}).
Proof.
  destruct options as [mr cat mn mx]. simpl. split_and!.
  - intros p -> Hp _. unfold buildRequest, buildItemFilters. simpl.
    rewrite decide_True by done.
    split_and!; [| | | |apply pretty_Z_digits];
      destruct cat as [[|c cat]|]; simpl;
      destruct mx as [mx|]; try destruct (decide (mx ≠ 0%Z)); reflexivity.
  - intros p -> Hp _. unfold buildRequest, buildItemFilters. simpl.
    rewrite (decide_True (P := p ≠ 0%Z)) by done.
    destruct mn as [mn|]; [destruct (decide (mn ≠ 0%Z))|];
      [exists 3|exists 2|exists 2];
      destruct cat as [[|c cat]|]; simpl; split_and!; reflexivity.
  - intros ->. reflexivity.
  - intros ->. reflexivity.
Qed.

(** ** Vision analysis orchestrator: answers, statuses and counts *)

Section OrchestratorMore.
Variable toLowerCase : jsstring -> jsstring.
Variables ANTHROPIC_API_KEY EBAY_APP_ID : option jsstring.
Variable network : nat -> Request -> HttpOutcome.
Variable saleDetails : jsstring -> outcome SaleDetails.
Variable vision : nat -> Photo -> outcome (list Item).

Abbreviation post := (POST toLowerCase ANTHROPIC_API_KEY EBAY_APP_ID network
                           saleDetails vision).

(** What steps 3 to 6 return when they return. *)
Lemma analyzeItems_report (nPhotos nPictures : nat) (allItems : list Item) (r : Response) :
  analyzeItems toLowerCase EBAY_APP_ID network nPhotos nPictures allItems = Returned r ->
  ∃ deduplicated items summary,
    deduplicateItems toLowerCase defaultNameThreshold defaultQueryThreshold allItems
      = Returned deduplicated ∧
    r = Report items summary ∧
    length items = length deduplicated ∧
    itemsFound summary = length items ∧
    photosAnalyzed summary = nPhotos ∧
    totalPhotos summary = nPictures ∧
    (ebayAvailable summary = false -> ebayMedian summary = None) ∧
    (truthy EBAY_APP_ID = false ->
     ebayAvailable summary = false ∧ items = sortBy byValue deduplicated).
Proof.
  unfold analyzeItems.
  destruct (deduplicateItems _ _ _ allItems) as [deduplicated|e]; simpl; [|done].
  destruct (truthy EBAY_APP_ID) eqn:Hkey.
  - rewrite batchPriceLookup_run by lia. simpl.
    set (merged := attachComps _ <$> deduplicated).
    destruct (foldl addToTotals _ _) as [[totalLow totalHigh] totalEbayMedian].
    intros [= <-]. eexists _, _, _. split; [done|]. split; [done|]. simpl.
    split_and!; [|done..| |done].
    + rewrite (sortBy_length byValue). unfold merged. by rewrite !length_fmap.
    + by intros ->.
  - set (merged := (fun item : Item => (item, false)) <$> deduplicated).
    assert (Hfst : fst <$> merged = deduplicated).
    { unfold merged. rewrite <- list_fmap_compose. apply list_fmap_id. }
    assert (Hnone : existsb snd merged = false).
    { unfold merged. clear. induction deduplicated as [|x l IH]; [done|exact IH]. }
    destruct (foldl addToTotals _ _) as [[totalLow totalHigh] totalEbayMedian].
    intros [= <-]. eexists _, _, _. split; [done|]. split; [done|]. simpl.
    rewrite Hfst, Hnone.
    split_and!; [|done..].
    apply (sortBy_length byValue).
Qed.

(** X18.  The handler always answers: the batch lookup it starts, with
    batches of 3, always ends. *)
Theorem POST_always_answers (request : outcome RequestBody) :
  answered (post request) = true.
Proof.
  unfold POST, handle.
  destruct request as [body|e]; simpl; [|done].
  destruct (truthy (saleId body)); simpl; [|done].
  destruct (truthy ANTHROPIC_API_KEY); simpl; [|done].
  destruct (saleDetails _) as [sale|e]; simpl; [|done].
  destruct (saleOk sale); simpl; [|done].
  destruct (decide (length (pictures sale) = 0)); simpl; [done|].
  destruct (analyzeItems _ _ _ _ _ _) as [r|e] eqn:Han; [|done].
  apply analyzeItems_report in Han as (d & items & summary & _ & -> & _). done.
Qed.

(** X19.  Status 400 is answered only when the request body was read
    and names no sale; every other failure has status 500.  The empty
    report is answered only for a sale whose listing was fetched with
    success and has no picture. *)
Theorem POST_failures (request : outcome RequestBody) :
  (∀ status error detail,
     post request = Failure status error detail ->
     (status = 400%Z ∧ error = js "saleId is required" ∧ detail = None ∧
      ∃ body, request = Returned body ∧ truthy (saleId body) = false) ∨
     status = 500%Z) ∧
  (∀ note,
     post request = NoPhotos note ->
     ∃ body sale,
       request = Returned body ∧
       saleDetails (default [] (saleId body)) = Returned sale ∧
       saleOk sale = true ∧ pictures sale = []).
Proof.
  unfold POST, handle.
  destruct request as [body|e]; simpl; [|split; [intros ? ? ? [= <- _ _]; by right|done]].
  destruct (truthy (saleId body)) eqn:Hid; simpl.
  2:{ split; [|done]. intros ? ? ? [= <- <- <-]. left. split_and!; [done..|]. by exists body. }
  destruct (truthy ANTHROPIC_API_KEY); simpl.
  2:{ split; [|done]. intros ? ? ? [= <- _ _]. by right. }
  destruct (saleDetails _) as [sale|e] eqn:Hsale; simpl.
  2:{ split; [|done]. intros ? ? ? [= <- _ _]. by right. }
  destruct (saleOk sale) eqn:Hok; simpl.
  2:{ split; [|done]. intros ? ? ? [= <- _ _]. by right. }
  destruct (decide (length (pictures sale) = 0)) as [Hzero|Hsome]; simpl.
  { split; [done|]. intros note _. exists body, sale.
    split_and!; [done..|]. by destruct (pictures sale). }
  destruct (analyzeItems _ _ _ _ _ _) as [r|e] eqn:Han.
  - apply analyzeItems_report in Han as (d & items & summary & _ & -> & _). done.
  - split; [|done]. intros ? ? ? [= <- _ _]. by right.
Qed.

(** X20.  The counts of a report: as many items found as items listed;
    the photos analysed are the first [maxPhotos] (10 when not given) of
    the photos of the sale, which has at least one. *)
Theorem POST_report_counts (request : outcome RequestBody) (items : list Item)
  (summary : Summary) :
  post request = Report items summary ->
  ∃ body sale,
    request = Returned body ∧
    saleDetails (default [] (saleId body)) = Returned sale ∧
    itemsFound summary = length items ∧
    totalPhotos summary = length (pictures sale) ∧
    0 < totalPhotos summary ∧
    photosAnalyzed summary
      = Nat.min (default 10 (maxPhotos body)) (length (pictures sale)).
Proof.
  unfold POST, handle.
  destruct request as [body|e]; simpl; [|done].
  destruct (truthy (saleId body)); simpl; [|done].
  destruct (truthy ANTHROPIC_API_KEY); simpl; [|done].
  destruct (saleDetails _) as [sale|e] eqn:Hsale; simpl; [|done].
  destruct (saleOk sale); simpl; [|done].
  destruct (decide (length (pictures sale) = 0)); simpl; [done|].
  destruct (analyzeItems _ _ _ _ _ _) as [r|e] eqn:Han; [|done].
  apply analyzeItems_report in Han
    as (d & items' & summary' & _ & -> & _ & Hfound & Hphotos & Htotal & _).
  intros [= <- <-]. exists body, sale.
  split_and!; [done|done|done|done|lia|].
  rewrite Hphotos. apply length_take.
Qed.

(** X21.  Without the marketplace credential the report is still made.
    Every report then says that no marketplace data is available and
    gives no marketplace median.  And for a request that names a sale
    whose listing has photos, with the vision credential set and
    detections whose names and search phrases are strings and whose
    confidence names no inherited property, the answer is a report
    whose items are exactly the deduplicated detections of the photos
    analysed, in stable descending order of the value key, with no comp
    data attached. *)
Theorem POST_without_credential :
  truthy EBAY_APP_ID = false ->
  (∀ request items summary,
     post request = Report items summary ->
     ebayAvailable summary = false ∧ ebayMedian summary = None) ∧
  (∀ body sale,
     truthy (saleId body) = true ->
     truthy ANTHROPIC_API_KEY = true ->
     saleDetails (default [] (saleId body)) = Returned sale ->
     saleOk sale = true ->
     pictures sale ≠ [] ->
     let detections :=
       mjoin (imap (analyzePhoto vision)
                (take (default 10 (maxPhotos body)) (pictures sale))) in
     Forall hasStrings detections ->
     Forall plainConfidence detections ->
     ∃ deduplicated summary,
       deduplicateItems toLowerCase defaultNameThreshold defaultQueryThreshold detections
         = Returned deduplicated ∧
       post (Returned body) = Report (sortBy byValue deduplicated) summary ∧
       itemsFound summary = length deduplicated ∧
       ebayAvailable summary = false ∧
       ebayMedian summary = None).
Proof.
  intros Hkey. split.
  - intros request items summary. unfold POST, handle.
    destruct request as [body|e]; simpl; [|done].
    destruct (truthy (saleId body)); simpl; [|done].
    destruct (truthy ANTHROPIC_API_KEY); simpl; [|done].
    destruct (saleDetails _) as [sale|e] eqn:Hsale; simpl; [|done].
    destruct (saleOk sale); simpl; [|done].
    destruct (decide (length (pictures sale) = 0)); simpl; [done|].
    destruct (analyzeItems _ _ _ _ _ _) as [r|e] eqn:Han; [|done].
    apply analyzeItems_report in Han
      as (d & items' & summary' & Hd & -> & _ & _ & _ & _ & Hmedian & Hno).
    intros [= <- <-]. destruct (Hno Hkey) as [Hav _].
    split; [done|by apply Hmedian].
  - intros body sale Hid Hvision Hsale Hok Hpics detections Hstrings _.
    destruct (deduplicateItems_total toLowerCase defaultNameThreshold
                defaultQueryThreshold detections Hstrings) as [deduplicated Hd].
    exists deduplicated.
    unfold POST, handle. simpl. rewrite Hid, Hvision. simpl. rewrite Hsale. simpl.
    rewrite Hok. simpl.
    rewrite decide_False by (destruct (pictures sale); done).
    fold detections.
    destruct (analyzeItems _ _ _ _ _ detections) as [r|e] eqn:Han.
    + apply analyzeItems_report in Han
        as (d & items' & summary' & Hd' & -> & _ & Hfound & _ & _ & Hmedian & Hno).
      rewrite Hd in Hd'. injection Hd' as <-.
      destruct (Hno Hkey) as [Hav ->].
      exists summary'. split_and!; [done|done| |done|by apply Hmedian].
      rewrite Hfound. apply (sortBy_length byValue).
    + exfalso. revert Han. unfold analyzeItems. rewrite Hd. simpl. rewrite Hkey.
      by destruct (foldl addToTotals _ _) as [[totalLow totalHigh] totalEbayMedian].
Qed.

(** X25.  When no attached median is 0, the items of a report are in
    descending order of best-known value: the attached marketplace
    median when comp data is present, else the first dollar amount of
    the value hint. *)
Theorem POST_report_by_best_known_value (request : outcome RequestBody)
  (items : list Item) (summary : Summary) :
  post request = Report items summary ->
  Forall (fun a => ∀ e, ebay a = Some e -> median e ≠ 0%Z) items ->
  descendingBy bestKnownValue items.
Proof.
  intros Hpost Hmedians.
  refine (proj2 (POST_report_sorted toLowerCase ANTHROPIC_API_KEY EBAY_APP_ID network
                   saleDetails vision request items _) Hmedians).
  by rewrite Hpost.
Qed.
End OrchestratorMore.

(** ** Parsing the reply of the vision model *)

Lemma dropWhile_all (p : N -> bool) (ws s : jsstring) :
  Forall (fun c => p c = true) ws -> dropWhile p (ws ++ s) = dropWhile p s.
Proof. induction 1 as [|c ws Hc _ IH]; simpl; [done|]. by rewrite Hc. Qed.

Lemma dropWhile_stop (p : N -> bool) (c : N) (s : jsstring) :
  p c = false -> dropWhile p (c :: s) = c :: s.
Proof. intros Hc. simpl. by rewrite Hc. Qed.

(** Trimming removes the white space around a text that starts and ends
    with other characters. *)
Lemma trim_padded (ws1 ws2 middle : jsstring) (first last : N) :
  Forall (fun c => isWhiteSpace c = true) ws1 ->
  Forall (fun c => isWhiteSpace c = true) ws2 ->
  isWhiteSpace first = false -> isWhiteSpace last = false ->
  trim (ws1 ++ first :: middle ++ last :: ws2) = first :: middle ++ [last].
Proof.
  intros H1 H2 Hfirst Hlast. unfold trim.
  rewrite dropWhile_all, dropWhile_stop by done.
  replace (first :: middle ++ last :: ws2) with ((first :: middle ++ [last]) ++ ws2)
    by (simpl; by rewrite <- app_assoc).
  rewrite reverse_app, dropWhile_all by (by apply Forall_reverse).
  rewrite app_comm_cons, reverse_app. simpl.
  change (reverse [last]) with [last]. simpl. rewrite Hlast.
  change (last :: reverse (first :: middle)) with ([last] ++ reverse (first :: middle)).
  by rewrite reverse_app, reverse_involutive.
Qed.

Lemma endsWith_app (s p : jsstring) : endsWith (s ++ p) p = true.
Proof.
  unfold endsWith. apply bool_decide_eq_true. rewrite length_app. split; [lia|].
  replace (length s + length p - length p) with (length s) by lia.
  by rewrite drop_app_length.
Qed.

Lemma stripFence_fenced (tag body : jsstring) :
  tag = [] ∨ tag = js "json" ->
  stripFence (fence ++ tag ++ LF ++ body ++ LF ++ fence) = body.
Proof.
  intros Htag. unfold stripFence. rewrite drop_app_length. cbv zeta.
  set (rest := body ++ LF ++ fence).
  assert (Hdropped : (if startsWith (tag ++ LF ++ rest) (js "json")
                      then drop 4 (tag ++ LF ++ rest) else tag ++ LF ++ rest)
                     = LF ++ rest).
  { destruct Htag as [->| ->]; reflexivity. }
  rewrite Hdropped.
  change (startsWith (LF ++ rest) LF) with true.
  change (drop 1 (LF ++ rest)) with rest. unfold rest.
  rewrite (endsWith_app body (LF ++ fence)).
  rewrite length_app.
  replace (length body + length (LF ++ fence) - 4) with (length body) by (simpl; lia).
  by rewrite take_app_length.
Qed.

(** X22.  A reply that is a code fence, with or without the [json] tag,
    around a body, possibly with white space around the fence, is read
    as its body: cleaning gives the body, and parsing the reply gives
    what parsing the body alone gives. *)
Theorem parseItemsFromResponse_fenced (JSON_parse : jsstring -> outcome JSON)
  (tag body ws1 ws2 : jsstring) :
  tag = [] ∨ tag = js "json" ->
  Forall (fun c => isWhiteSpace c = true) ws1 ->
  Forall (fun c => isWhiteSpace c = true) ws2 ->
  let reply := ws1 ++ fence ++ tag ++ LF ++ body ++ LF ++ fence ++ ws2 in
  cleanReply reply = body ∧
  (cleanReply body = body ->
   parseItemsFromResponse JSON_parse reply = parseItemsFromResponse JSON_parse body).
Proof.
  intros Htag H1 H2 reply.
  assert (Hclean : cleanReply reply = body).
  { unfold cleanReply, reply.
    replace (ws1 ++ fence ++ tag ++ LF ++ body ++ LF ++ fence ++ ws2)
      with (ws1 ++ 96%N :: (js "``" ++ tag ++ LF ++ body ++ LF ++ js "``") ++ 96%N :: ws2).
    2:{ unfold fence. change (js "```") with (96%N :: js "``").
        change (js "```") with (js "``" ++ [96%N]).
        simpl. repeat (rewrite <- ?app_assoc; simpl). done. }
    rewrite trim_padded by done.
    replace (96%N :: (js "``" ++ tag ++ LF ++ body ++ LF ++ js "``") ++ [96%N])
      with (fence ++ tag ++ LF ++ (body ++ LF ++ fence)).
    2:{ unfold fence. simpl. repeat (rewrite <- ?app_assoc; simpl). done. }
    assert (Hstarts : startsWith (fence ++ tag ++ LF ++ body ++ LF ++ fence) fence = true).
    { by apply bool_decide_eq_true. }
    rewrite Hstarts. by apply stripFence_fenced. }
  split; [done|]. intros Hbody. unfold parseItemsFromResponse. by rewrite Hclean, Hbody.
Qed.

Lemma dropWhile_reverse_last (p : N -> bool) (s post : jsstring) (c : N) :
  p c = false -> Forall (fun x => p x = true) post ->
  reverse (dropWhile p (reverse (s ++ c :: post))) = s ++ [c].
Proof.
  intros Hc Hpost.
  rewrite reverse_app, reverse_cons, <- app_assoc.
  rewrite dropWhile_all by (by apply Forall_reverse).
  simpl. rewrite Hc.
  change (c :: reverse s) with ([c] ++ reverse s).
  by rewrite reverse_app, reverse_involutive.
Qed.

(** From the first opening bracket to the last closing bracket. *)
Lemma bracketed_found (before inside after : jsstring) :
  91%N ∉ before -> 93%N ∉ after ->
  bracketed (before ++ [91%N] ++ inside ++ [93%N] ++ after)
  = Some ([91%N] ++ inside ++ [93%N]).
Proof.
  intros Hbefore Hafter. unfold bracketed.
  rewrite dropWhile_all.
  2:{ apply Forall_forall. intros c Hc. apply negb_true_iff, N.eqb_neq.
      intros ->. by apply Hbefore. }
  simpl.
  change (91%N :: inside ++ 93%N :: after) with ((91%N :: inside) ++ 93%N :: after).
  rewrite dropWhile_reverse_last; [|done|].
  2:{ apply Forall_forall. intros c Hc. apply negb_true_iff, N.eqb_neq.
      intros ->. by apply Hafter. }
  simpl. by destruct inside.
Qed.

Lemma dropWhile_none (p : N -> bool) (s : jsstring) :
  Forall (fun c => p c = true) s -> dropWhile p s = [].
Proof. induction 1 as [|c s Hc _ IH]; simpl; [done|]. by rewrite Hc. Qed.

Lemma dropWhile_suffix (p : N -> bool) (s : jsstring) (c : N) :
  c ∈ dropWhile p s -> c ∈ s.
Proof.
  induction s as [|d s IH]; simpl; [done|].
  destruct (p d); [|done]. intros H. right. by apply IH.
Qed.

Lemma bracketed_none (cleaned : jsstring) :
  91%N ∉ cleaned ∨ 93%N ∉ cleaned -> bracketed cleaned = None.
Proof.
  intros Hno. unfold bracketed.
  set (from := dropWhile (fun c => negb (c =? 91)%N) cleaned).
  assert (Hnone : Forall (fun c => negb (c =? 93)%N = true) (reverse from)).
  { apply Forall_forall. intros c Hc. apply negb_true_iff, N.eqb_neq. intros ->.
    rewrite elem_of_reverse in Hc.
    destruct Hno as [Hno|Hno].
    - destruct from as [|d from'] eqn:Hfrom; [by apply elem_of_nil in Hc|].
      assert (Hall : Forall (fun c => negb (c =? 91)%N = true) cleaned).
      { apply Forall_forall. intros x Hx. apply negb_true_iff, N.eqb_neq.
        intros ->. by apply Hno. }
      unfold from in Hfrom. by rewrite dropWhile_none in Hfrom.
    - apply Hno. by apply (dropWhile_suffix _ _ _ Hc). }
  by rewrite dropWhile_none.
Qed.

Section ParseItemsFacts.
Variable JSON_parse : jsstring -> outcome JSON.

(** X23.  When the cleaned reply does not parse and holds a bracketed
    text, from its first opening bracket to its last closing bracket,
    the result is what that text parses to; a failure to parse it is
    the parser's own exception. *)
Theorem parseItemsFromResponse_fallback (text before inside after : jsstring) (e : exn) :
  JSON_parse (cleanReply text) = Thrown e ->
  cleanReply text = before ++ [91%N] ++ inside ++ [93%N] ++ after ->
  91%N ∉ before -> 93%N ∉ after ->
  parseItemsFromResponse JSON_parse text = JSON_parse ([91%N] ++ inside ++ [93%N]).
Proof.
  intros Hparse Hshape Hbefore Hafter. unfold parseItemsFromResponse.
  rewrite Hparse, Hshape. by rewrite bracketed_found.
Qed.

(** X24.  When the cleaned reply does not parse and has no opening or no
    closing bracket, the reply is refused with the message 'Could not
    parse items from Claude response'. *)
Theorem parseItemsFromResponse_unparseable (text : jsstring) (e : exn) :
  JSON_parse (cleanReply text) = Thrown e ->
  91%N ∉ cleanReply text ∨ 93%N ∉ cleanReply text ->
  parseItemsFromResponse JSON_parse text
  = Thrown (Exn PlainError (js "Could not parse items from Claude response")).
Proof.
  intros Hparse Hno. unfold parseItemsFromResponse.
  by rewrite Hparse, bracketed_none.
Qed.
End ParseItemsFacts.

(** ** Instances of the further properties *)

Lemma deduplicateItems_sorted_by_confidence_witness :
  descendingBy rankOf
    [set_notable_features (mergeFeatures pyrexHigh pyrexMedium) pyrexHigh; corningware].
Proof.
  apply (deduplicateItems_sorted_by_confidence toLowerCaseASCII defaultNameThreshold
           defaultQueryThreshold [pyrexMedium; corningware; pyrexHigh]).
  - refine (bool_decide_unpack _ _). vm_compute. exact I.
  - vm_compute. reflexivity.
Defined.

Lemma deduplicateItems_survivors_from_input_witness :
  let out := [set_notable_features (mergeFeatures pyrexHigh pyrexMedium) pyrexHigh;
              corningware] in
  length out <= 3 ∧
  ∀ s, s ∈ out -> ∃ x, x ∈ [pyrexMedium; corningware; pyrexHigh] ∧ grownFrom x s.
Proof.
  apply (deduplicateItems_survivors_from_input toLowerCaseASCII defaultNameThreshold
           defaultQueryThreshold [pyrexMedium; corningware; pyrexHigh]).
  vm_compute. reflexivity.
Defined.

Lemma deduplicateItems_covers_input_witness :
  ∃ s, s ∈ [set_notable_features (mergeFeatures pyrexHigh pyrexMedium) pyrexHigh;
            corningware] ∧
       (grownFrom pyrexMedium s ∨
        isDuplicateOf toLowerCaseASCII defaultNameThreshold defaultQueryThreshold
          pyrexMedium s = Returned true) ∧
       ∀ f, f ∈ featuresOf pyrexMedium -> f ∈ featuresOf s.
Proof.
  apply (deduplicateItems_covers_input toLowerCaseASCII defaultNameThreshold
           defaultQueryThreshold [pyrexMedium; corningware; pyrexHigh]).
  - vm_compute. reflexivity.
  - apply elem_of_cons. left. reflexivity.
Defined.

Lemma deduplicateItems_distinct_categories_witness :
  deduplicateItems toLowerCaseASCII defaultNameThreshold defaultQueryThreshold
    [lamp; tokenMedium; tokenHigh]
  = Returned [tokenHigh; tokenMedium; lamp].
Proof.
  apply (deduplicateItems_distinct_categories toLowerCaseASCII defaultNameThreshold
           defaultQueryThreshold [lamp; tokenMedium; tokenHigh]).
  - refine (bool_decide_unpack _ _). vm_compute. exact I.
  - refine (bool_decide_unpack _ _). vm_compute. exact I.
Defined.

Lemma batchPriceLookup_one_result_per_item_witness :
  ∃ results,
    (batchPriceLookup (Some (js "APP")) unreachable [pyrexHigh; lamp; corningware; brassKey]
       3 []).1 = Some results ∧
    length results = 4 ∧
    itemName <$> results = name <$> [pyrexHigh; lamp; corningware; brassKey].
Proof.
  apply (batchPriceLookup_one_result_per_item (Some (js "APP")) unreachable
           [pyrexHigh; lamp; corningware; brassKey] 3 []).
  lia.
Defined.

Lemma batchPriceLookup_any_batch_size_witness :
  batchPriceLookup (Some (js "APP")) tokenMarket [tokenHigh; lamp; tokenMedium] 1 []
  = batchPriceLookup (Some (js "APP")) tokenMarket [tokenHigh; lamp; tokenMedium] 3 [].
Proof.
  apply (batchPriceLookup_any_batch_size (Some (js "APP")) tokenMarket
           [tokenHigh; lamp; tokenMedium] 1 3 []); lia.
Defined.

Lemma batchLoop_zero_batch_size_witness :
  batchLoop (Some (js "APP")) unreachable 1000 [pyrexHigh] 0 0 [] [] = (None, []).
Proof.
  apply (batchLoop_zero_batch_size (Some (js "APP")) unreachable [pyrexHigh] 1000 [] []).
  discriminate.
Defined.

Lemma batchPriceLookup_without_credential_witness :
  ∃ results,
    (batchPriceLookup None tokenMarket [tokenHigh; lamp] 3 []).1 = Some results ∧
    requestsOf (batchPriceLookup None tokenMarket [tokenHigh; lamp] 3 []).2 = [] ∧
    Forall (fun r => ∃ reason, ebayLookup r = Unavailable reason) results.
Proof.
  apply (batchPriceLookup_without_credential None tokenMarket [tokenHigh; lamp] 3).
  - lia.
  - reflexivity.
Defined.

Lemma batchPriceLookup_requests_witness :
  requestsOf (batchPriceLookup (Some (js "APP")) tokenMarket [tokenHigh; lamp; brassKey]
                3 []).2
  = [requestFor_item (js "APP") tokenHigh; requestFor_item (js "APP") brassKey].
Proof.
  apply (batchPriceLookup_requests (Some (js "APP")) tokenMarket
           [tokenHigh; lamp; brassKey] 3).
  - lia.
  - reflexivity.
Defined.

Lemma parseEstimate_reads_amount_witness :
  parseEstimate (Some (js "about " ++ js "$" ++ js (pretty 50%N) ++ js "-100")) = 50%Z.
Proof.
  apply (parseEstimate_reads_amount (js "about ") (js "-100") 50%N).
  - reflexivity.
  - repeat constructor.
  - intros c rest [= <- _]. reflexivity.
Defined.

Lemma priceStats_bounds_witness :
  let st := priceStats twoSales in
  (0 < low st)%Q ∧ (low st <= high st)%Q ∧
  (mathRound (low st) <= median st <= mathRound (high st))%Z.
Proof.
  destruct (priceStats_bounds twoSales) as (_ & _ & _ & Hpriced).
  apply Hpriced. vm_compute. lia.
Defined.

Lemma priceRange_bounds_witness :
  ∃ lowest highest,
    priceRange brassKey = (Some lowest, Some highest) ∧
    lowest = 2%Z ∧ highest = 15%Z ∧ (lowest <= highest)%Z.
Proof.
  destruct (priceRange_bounds brassKey (js "5") [] eq_refl eq_refl eq_refl eq_refl)
    as (lowest & highest & Hrange & Hlowest & Hhighest & _ & _ & Horder).
  exists lowest, highest. split; [exact Hrange|].
  split; [exact Hlowest|]. split; [exact Hhighest|].
  apply Horder; vm_compute; discriminate.
Defined.

Lemma buildRequest_price_filters_witness :
  let req := buildRequest (js "APP") (js "pyrex 401")
               {| maxResults := None; categoryId := None;
                  minPrice := Some 6%Z; maxPrice := Some 60%Z |} in
  paramOf (js "itemFilter(2).name") req = Some (js "MinPrice") ∧
  paramOf (js "itemFilter(2).value") req = Some (js "6") ∧
  paramOf (js "itemFilter(2).paramName") req = Some (js "Currency") ∧
  paramOf (js "itemFilter(2).paramValue") req = Some (js "USD") ∧
  parseInt (js "6") = 6%Z.
Proof.
  destruct (proj1 (buildRequest_price_filters (js "APP") (js "pyrex 401")
                     {| maxResults := None; categoryId := None;
                        minPrice := Some 6%Z; maxPrice := Some 60%Z |}) 6%Z eq_refl)
    as (Hname & Hvalue & Hparam & Hcurrency & Hback); [discriminate|reflexivity|].
  split; [exact Hname|]. split; [exact Hvalue|]. split; [exact Hparam|].
  split; [exact Hcurrency|]. apply Hback. vm_compute. discriminate.
Defined.

Lemma POST_failures_witness :
  (400 = 400 ∧ js "saleId is required" = js "saleId is required" ∧ @None jsstring = None ∧
   ∃ body, Returned {| saleId := None; saleTitle := None; saleAddress := None;
                       maxPhotos := None |} = Returned body ∧
           truthy (saleId body) = false)%Z ∨
  (400 = 500)%Z.
Proof.
  apply (proj1 (POST_failures toLowerCaseASCII (Some (js "key")) None unreachable oneSale
                  (fun _ _ => Returned [lamp])
                  (Returned {| saleId := None; saleTitle := None; saleAddress := None;
                               maxPhotos := None |}))).
  reflexivity.
Defined.

Lemma POST_report_counts_witness :
  ∃ items summary,
    POST toLowerCaseASCII (Some (js "key")) (Some (js "APP")) tokenMarket oneSale
         (fun _ _ => Returned [lamp; tokenMedium; tokenHigh])
         (Returned (requestFor "4242")) = Report items summary ∧
    ∃ body sale,
      Returned (requestFor "4242") = Returned body ∧
      oneSale (default [] (saleId body)) = Returned sale ∧
      itemsFound summary = length items ∧
      totalPhotos summary = length (pictures sale) ∧
      0 < totalPhotos summary ∧
      photosAnalyzed summary = Nat.min (default 10 (maxPhotos body)) (length (pictures sale)).
Proof.
  eexists _, _. split; [vm_compute; reflexivity|].
  apply (POST_report_counts toLowerCaseASCII (Some (js "key")) (Some (js "APP")) tokenMarket
           oneSale (fun _ _ => Returned [lamp; tokenMedium; tokenHigh])).
  vm_compute. reflexivity.
Defined.

Lemma POST_without_credential_witness :
  let detections :=
    mjoin (imap (analyzePhoto
                   (fun _ _ => Returned [brassKey; tokenMedium; pyrexMedium; pyrexHigh]))
             (take 10 [onePhoto])) in
  ∃ deduplicated summary,
    deduplicateItems toLowerCaseASCII defaultNameThreshold defaultQueryThreshold detections
      = Returned deduplicated ∧
    POST toLowerCaseASCII (Some (js "key")) None tokenMarket oneSale
         (fun _ _ => Returned [brassKey; tokenMedium; pyrexMedium; pyrexHigh])
         (Returned (requestFor "4242"))
    = Report (sortBy byValue deduplicated) summary ∧
    itemsFound summary = length deduplicated ∧
    ebayAvailable summary = false ∧
    ebayMedian summary = None.
Proof.
  apply (proj2 (POST_without_credential toLowerCaseASCII (Some (js "key")) None
                  tokenMarket oneSale
                  (fun _ _ => Returned [brassKey; tokenMedium; pyrexMedium; pyrexHigh])
                  eq_refl)
           (requestFor "4242")
           {| saleOk := true; saleStatus := 200; pictures := [onePhoto] |}).
  - reflexivity.
  - reflexivity.
  - reflexivity.
  - reflexivity.
  - discriminate.
  - repeat constructor; vm_compute; eexists; reflexivity.
  - refine (bool_decide_unpack _ _). vm_compute. exact I.
Defined.

Lemma POST_report_by_best_known_value_witness :
  ∃ items summary,
    POST toLowerCaseASCII (Some (js "key")) (Some (js "APP")) steadyMarket oneSale
         (fun _ _ => Returned [lamp; tokenMedium; brassKey])
         (Returned (requestFor "4242")) = Report items summary ∧
    descendingBy bestKnownValue items.
Proof.
  eexists _, _. split; [vm_compute; reflexivity|].
  eapply (POST_report_by_best_known_value toLowerCaseASCII (Some (js "key"))
            (Some (js "APP")) steadyMarket oneSale
            (fun _ _ => Returned [lamp; tokenMedium; brassKey])
            (Returned (requestFor "4242"))).
  - vm_compute. reflexivity.
  - repeat constructor; intros e [= <-]; discriminate.
Defined.

Lemma parseItemsFromResponse_fenced_witness :
  let reply := [] ++ fence ++ js "json" ++ LF ++ js "[]" ++ LF ++ fence ++ LF in
  cleanReply reply = js "[]" ∧
  parseItemsFromResponse onlyEmptyArray reply
  = parseItemsFromResponse onlyEmptyArray (js "[]").
Proof.
  destruct (parseItemsFromResponse_fenced onlyEmptyArray (js "json") (js "[]") [] LF)
    as [Hclean Hparse].
  - right. reflexivity.
  - constructor.
  - repeat constructor.
  - split; [exact Hclean|]. apply Hparse. reflexivity.
Defined.

Lemma parseItemsFromResponse_fallback_witness :
  parseItemsFromResponse onlyEmptyArray (js "Items: [] done")
  = onlyEmptyArray ([91%N] ++ [] ++ [93%N]).
Proof.
  apply (parseItemsFromResponse_fallback onlyEmptyArray (js "Items: [] done")
           (js "Items: ") [] (js " done") (Exn SyntaxError (js "Unexpected token"))).
  - reflexivity.
  - reflexivity.
  - refine (bool_decide_unpack _ _). vm_compute. exact I.
  - refine (bool_decide_unpack _ _). vm_compute. exact I.
Defined.

Lemma parseItemsFromResponse_unparseable_witness :
  parseItemsFromResponse onlyEmptyArray (js "I see no items of value.")
  = Thrown (Exn PlainError (js "Could not parse items from Claude response")).
Proof.
  apply (parseItemsFromResponse_unparseable onlyEmptyArray (js "I see no items of value.")
           (Exn SyntaxError (js "Unexpected token"))).
  - reflexivity.
  - left. refine (bool_decide_unpack _ _). vm_compute. exact I.
Defined.

(** ** The model on the examples of the specification *)

Example similarity_night_nacht :
  similarity toLowerCaseASCII (js "night") (js "nacht") = (2 # 8)%Q.
Proof. vm_compute. reflexivity. Qed.

Example similarity_ignores_case :
  similarity toLowerCaseASCII (js "PYREX") (js "pyrex") = 1%Q.
Proof. vm_compute. reflexivity. Qed.

Example similarity_ab_cd :
  (similarity toLowerCaseASCII (js "ab") (js "cd") == 0)%Q.
Proof. vm_compute. reflexivity. Qed.

(** A repeated bigram is matched once only. *)
Example similarity_consumes_matches :
  similarity toLowerCaseASCII (js "aaaa") (js "aa") = (2 # 4)%Q.
Proof. vm_compute. reflexivity. Qed.

Example parseEstimate_range : parseEstimate (Some (js "$50-100")) = 50%Z.
Proof. reflexivity. Qed.

Example dollarAmounts_two : dollarAmounts Idle (js "$50-$100") = [js "50"; js "100"].
Proof. reflexivity. Qed.

Example medianOf_odd : medianOf [10; 20; 30]%Q = 20%Z.
Proof. vm_compute. reflexivity. Qed.

Example medianOf_even : medianOf [10; 20]%Q = 15%Z.
Proof. vm_compute. reflexivity. Qed.

Example priceStats_empty :
  priceStats {| ack := Some (js "Success"); errorMessage := None; soldItems := [];
                totalEntries := 0 |}
  = {| count := 0; totalResults := 0; median := 0; mean := 0; low := 0%Q; high := 0%Q;
       recentSales := [] |}.
Proof. reflexivity. Qed.

(** The two Pyrex detections of the end-to-end scenario merge into the
    high-confidence one. *)
Example deduplicateItems_pyrex :
  deduplicateItems toLowerCaseASCII defaultNameThreshold defaultQueryThreshold
    [pyrexHigh; pyrexMedium]
  = Returned [set_notable_features [js "blue"; js "1 quart"; js "no chips"] pyrexHigh].
Proof. vm_compute. reflexivity. Qed.

(** Same name, different category: both survive. *)
Example deduplicateItems_other_category :
  deduplicateItems toLowerCaseASCII defaultNameThreshold defaultQueryThreshold
    [tokenMedium; tokenHigh]
  = Returned [tokenHigh; tokenMedium].
Proof. vm_compute. reflexivity. Qed.
